(** * Hives messenger: relay server and encryption wrapper

    A shallow embedding of the WebSocket relay (the server half of the
    messenger: [clients], [rooms], the per-type handlers, [broadcastToRoom],
    [findClientByUserId]) and of the AES-GCM message wrapper
    ([encryptMessage], [decryptMessage] and the two base64 helpers).

    Conventions of the embedding:
    - a JavaScript [Map] is an insertion-ordered association list with unique
      keys, a [Set] an insertion-ordered duplicate-free list: iteration order
      is observable ([findClientByUserId] returns the first match, a broadcast
      walks the member set in order);
    - envelope fields hold a JavaScript value restricted to [undefined],
      [null], booleans and strings; the [console.log] lines are left out
      (with such values the template literals in them cannot throw);
    - every handler runs to completion; it returns the new state together
      with the list of [ws.send] calls it made, in order;
    - a [TypeError] raised by a property access on [undefined]/[null] is an
      explicit exceptional result (all such accesses happen before the
      handler has had any effect);
    - [Date.now()] is an oracle [Date_now] indexed by the number of calls
      made so far, which the state counts in [ticks]. *)

From Stdlib Require Import String List Bool Arith ZArith NArith Lia.
From Stdlib.Strings Require Import Byte.
Import ListNotations.
Open Scope string_scope.
Open Scope list_scope.


(** ** JavaScript values *)

Inductive value : Type :=
| Undefined
| Null
| Bool (b : bool)
| Str (s : string).

(** [a === b] *)
Definition value_eqb (a b : value) : bool :=
  match a, b with
  | Undefined, Undefined => true
  | Null, Null => true
  | Bool x, Bool y => Bool.eqb x y
  | Str x, Str y => String.eqb x y
  | _, _ => false
  end.

(** [Boolean(v)], the test made by [if (v)], [!v] and [.filter(Boolean)] *)
Definition truthy (v : value) : bool :=
  match v with
  | Undefined => false
  | Null => false
  | Bool b => b
  | Str s => negb (String.eqb s "")
  end.

(** Keys of a [Map]: a type with a decidable equality (SameValueZero, which
    is structural equality on the values modelled here). *)
Class EqKey (K : Type) : Type := {
  key_eqb : K -> K -> bool;
  key_eqb_eq : forall a b, key_eqb a b = true <-> a = b
}.

Lemma value_eqb_eq : forall a b, value_eqb a b = true <-> a = b.
Proof.
  intros [| |x|x] [| |y|y]; simpl; split; intro H;
    try reflexivity; try discriminate.
  - apply Bool.eqb_prop in H. now subst.
  - injection H as ->. apply Bool.eqb_reflx.
  - apply String.eqb_eq in H. now subst.
  - injection H as ->. apply String.eqb_refl.
Qed.

Lemma value_eqb_refl : forall a, value_eqb a a = true.
Proof. intro a. now apply value_eqb_eq. Qed.

#[global] Instance string_EqKey : EqKey string :=
  {| key_eqb := String.eqb; key_eqb_eq := String.eqb_eq |}.

#[global] Instance value_EqKey : EqKey value :=
  {| key_eqb := value_eqb; key_eqb_eq := value_eqb_eq |}.

(** ** [Map] and [Set] *)

Module JsMap.
Section Ops.
Context {K V : Type} `{EqKey K}.

Definition t := list (K * V).

(** [m.get(k)] *)
Fixpoint get (k : K) (m : t) : option V :=
  match m with
  | [] => None
  | (k', v) :: m' => if key_eqb k' k then Some v else get k m'
  end.

(** [m.has(k)] *)
Definition has (k : K) (m : t) : bool :=
  match get k m with Some _ => true | None => false end.

(** [m.set(k, v)]: an existing key keeps its position, a new one goes last *)
Fixpoint set (k : K) (v : V) (m : t) : t :=
  match m with
  | [] => [(k, v)]
  | (k', v') :: m' =>
      if key_eqb k' k then (k', v) :: m' else (k', v') :: set k v m'
  end.

(** [m.delete(k)] *)
Fixpoint delete (k : K) (m : t) : t :=
  match m with
  | [] => []
  | (k', v') :: m' =>
      if key_eqb k' k then delete k m' else (k', v') :: delete k m'
  end.
End Ops.
End JsMap.

Module JsSet.
Section Ops.
Context {K : Type} `{EqKey K}.

Definition t := list K.

Definition has (k : K) (s : t) : bool := existsb (key_eqb k) s.

(** [s.add(k)] *)
Definition add (k : K) (s : t) : t := if has k s then s else s ++ [k].

(** [s.delete(k)] *)
Definition delete (k : K) (s : t) : t :=
  filter (fun x => negb (key_eqb x k)) s.

(** [s.size] *)
Definition size (s : t) : nat := length s.
End Ops.
End JsSet.

(** ** Envelopes on the wire *)

(** A field of an object literal handed to [JSON.stringify]. *)
Inductive json : Type :=
| JVal (v : value)
| JNum (z : Z)
| JArr (l : list value).

Definition object := list (string * json).

(** [JSON.stringify(o)]: properties whose value is [undefined] are left out;
    the text is determined by what remains, in order. *)
Definition JSON_stringify (o : object) : object :=
  filter (fun kv => match snd kv with JVal Undefined => false | _ => true end) o.

(** An inbound envelope after [JSON.parse]: the properties the handlers
    read ([undefined] when absent). *)
Module Message.
Record t : Type := mk {
  type : value;
  userId : value;
  roomId : value;
  message : value;
  encrypted : value;
  targetUserId : value;
  data : value;
  callType : value;
  accepted : value
}.
End Message.

(** The result of [JSON.parse] when it does not throw: [null], or something
    whose properties can be read. *)
Inductive parsed : Type :=
| PNull
| PObj (m : Message.t).

(** ** Server state *)

(** The transport object of a connection.  [conn] names the connection it
    belongs to; [readyState] is maintained by the WebSocket library
    (1 is OPEN, 2 CLOSING, 3 CLOSED). *)
Record WebSocket : Type := { conn : string; readyState : nat }.

Record Client : Type := { ws : WebSocket; userId : value; roomId : value }.

Record State : Type := {
  clients : JsMap.t (K:=string) (V:=Client);
  rooms : JsMap.t (K:=value) (V:=JsSet.t (K:=string));
  ticks : nat
}.

Definition initial : State := {| clients := []; rooms := []; ticks := 0 |}.

(** One [ws.send(text)] call: the connection written to and the text. *)
Definition Send := (string * object)%type.

Definition with_clients (s : State) (c : JsMap.t) : State :=
  {| clients := c; rooms := rooms s; ticks := ticks s |}.

Definition with_rooms (s : State) (r : JsMap.t) : State :=
  {| clients := clients s; rooms := r; ticks := ticks s |}.

Definition tick (s : State) : State :=
  {| clients := clients s; rooms := rooms s; ticks := S (ticks s) |}.

Definition set_userId (c : Client) (u : value) : Client :=
  {| ws := ws c; userId := u; roomId := roomId c |}.

Definition set_roomId (c : Client) (r : value) : Client :=
  {| ws := ws c; userId := userId c; roomId := r |}.

Definition set_readyState (c : Client) (n : nat) : Client :=
  {| ws := {| conn := conn (ws c); readyState := n |};
     userId := userId c; roomId := roomId c |}.

(** [ws.send(JSON.stringify(o))] *)
Definition ws_send (w : WebSocket) (o : object) : Send :=
  (conn w, JSON_stringify o).

Inductive exn : Type :=
| TypeError_client   (* a property of an undefined client record was read *)
| TypeError_message. (* a property of a null message was read *)

Definition result := (State * list Send)%type.

Definition error_envelope (text : string) : object :=
  [("type", JVal (Str "error")); ("error", JVal (Str text))].

Section Server.

(** [Date_now k] is what the [k]-th call of [Date.now()] returns. *)
Variable Date_now : nat -> Z.

(** ** Helpers *)

(** [findClientByUserId]: first entry of [clients], in insertion order, whose
    [userId] is strictly equal to the argument. *)
Fixpoint find_client (cs : list (string * Client)) (u : value) : option Client :=
  match cs with
  | [] => None
  | (_, client) :: cs' =>
      if value_eqb (userId client) u then Some client else find_client cs' u
  end.

Definition findClientByUserId (s : State) (u : value) : option Client :=
  find_client (clients s) u.

(** [broadcastToRoom(roomId, message, excludeClientId = null)]: the object is
    serialized once and the same text goes to every member that is not the
    excluded one, still has a client record and whose transport is OPEN. *)
Definition broadcastToRoom (s : State) (r : value) (message : object)
    (excludeClientId : option string) : list Send :=
  match JsMap.get r (rooms s) with
  | None => []
  | Some room =>
      let messageStr := JSON_stringify message in
      flat_map
        (fun cId =>
           if match excludeClientId with
              | Some x => String.eqb cId x
              | None => false
              end
           then []
           else
             match JsMap.get cId (clients s) with
             | Some client =>
                 if Nat.eqb (readyState (ws client)) 1
                 then [(conn (ws client), messageStr)]
                 else []
             | None => []
             end)
        room
  end.

(** [leaveRoom(clientId, roomId)] *)
Definition leaveRoom (s : State) (clientId : string) (r : value) : result :=
  let client := JsMap.get clientId (clients s) in
  let '(s3, out) :=
    match JsMap.get r (rooms s) with
    | Some room =>
        let room' := JsSet.delete clientId room in
        let s1 := with_rooms s (JsMap.set r room' (rooms s)) in
        let '(s2, out) :=
          match client with
          | Some c =>
              if truthy (userId c)
              then (tick s1,
                    broadcastToRoom s1 r
                      [("type", JVal (Str "user-left"));
                       ("userId", JVal (userId c));
                       ("timestamp", JNum (Date_now (ticks s1)))]
                      None)
              else (s1, [])
          | None => (s1, [])
          end in
        (if Nat.eqb (JsSet.size room') 0
         then with_rooms s2 (JsMap.delete r (rooms s2))
         else s2,
         out)
    | None => (s, [])
    end in
  match client with
  | Some c => (with_clients s3 (JsMap.set clientId (set_roomId c Null) (clients s3)), out)
  | None => (s3, out)
  end.

(** The state in which [handleJoinRoom] enters the new room: the one
    [leaveRoom] produced when the client's [roomId] was truthy. *)
Definition after_leave (s : State) (c : string) (client : Client) : State :=
  if truthy (roomId client)
  then fst (leaveRoom s c (roomId client))
  else s.

(** [handleRegister(clientId, userId)] *)
Definition handleRegister (s : State) (clientId : string) (u : value) : result :=
  match JsMap.get clientId (clients s) with
  | Some client =>
      let client' := set_userId client u in
      (tick (with_clients s (JsMap.set clientId client' (clients s))),
       [ws_send (ws client')
          [("type", JVal (Str "registered"));
           ("userId", JVal u);
           ("timestamp", JNum (Date_now (ticks s)))]])
  | None => (s, [])
  end.

(** The [userId]s of a member list, as [joined-room] reports them:
    [.map(cId => clients.get(cId)?.userId).filter(Boolean)] *)
Definition usersInRoom (s : State) (room : list string) : list value :=
  filter truthy
    (map (fun cId =>
            match JsMap.get cId (clients s) with
            | Some c => userId c
            | None => Undefined
            end)
         room).

Definition room_of (s : State) (r : value) : list string :=
  match JsMap.get r (rooms s) with
  | Some room => room
  | None => []
  end.

(** The "Join new room" block of [handleJoinRoom]: the room is created when
    absent, the connection is added to its member set, and the client
    record's [roomId] is set. *)
Definition enterRoom (s1 : State) (clientId : string) (client : Client)
    (r : value) : State :=
  let s2 :=
    if JsMap.has r (rooms s1) then s1
    else with_rooms s1 (JsMap.set r [] (rooms s1)) in
  let s3 :=
    with_rooms s2
      (JsMap.set r (JsSet.add clientId (room_of s2 r)) (rooms s2)) in
  with_clients s3 (JsMap.set clientId (set_roomId client r) (clients s3)).

(** [handleJoinRoom(clientId, roomId)] *)
Definition handleJoinRoom (s : State) (clientId : string) (r : value)
    : exn + result :=
  match JsMap.get clientId (clients s) with
  | None => inl TypeError_client
  | Some client =>
      if negb (truthy (userId client))
      then inr (s, [ws_send (ws client)
                      (error_envelope "Must register before joining room")])
      else
        (* Leave current room if in one *)
        let '(s1, out1) :=
          if truthy (roomId client)
          then leaveRoom s clientId (roomId client)
          else (s, []) in
        let s4 := enterRoom s1 clientId client r in
        let out2 :=
          ws_send (ws client)
            [("type", JVal (Str "joined-room"));
             ("roomId", JVal r);
             ("users", JArr (usersInRoom s4 (room_of s4 r)));
             ("timestamp", JNum (Date_now (ticks s4)))] in
        let s5 := tick s4 in
        let out3 :=
          broadcastToRoom s5 r
            [("type", JVal (Str "user-joined"));
             ("userId", JVal (userId client));
             ("timestamp", JNum (Date_now (ticks s5)))]
            (Some clientId) in
        inr (tick s5, out1 ++ out2 :: out3)
  end.

(** [handleLeaveRoom(clientId)] *)
Definition handleLeaveRoom (s : State) (clientId : string) : result :=
  match JsMap.get clientId (clients s) with
  | Some client =>
      if truthy (roomId client) then leaveRoom s clientId (roomId client)
      else (s, [])
  | None => (s, [])
  end.

(** [handleChatMessage(clientId, message)] *)
Definition handleChatMessage (s : State) (clientId : string) (m : Message.t)
    : exn + result :=
  match JsMap.get clientId (clients s) with
  | None => inl TypeError_client
  | Some client =>
      if negb (truthy (roomId client))
      then inr (s, [ws_send (ws client)
                      (error_envelope "Must be in a room to send messages")])
      else
        inr (tick s,
             broadcastToRoom s (roomId client)
               [("type", JVal (Str "chat-message"));
                ("userId", JVal (userId client));
                ("message", JVal (Message.message m));
                ("encrypted", JVal (Message.encrypted m));
                ("timestamp", JNum (Date_now (ticks s)))]
               None)
  end.

(** [handleWebRTCSignaling(clientId, message)] *)
Definition handleWebRTCSignaling (s : State) (clientId : string)
    (m : Message.t) : result :=
  match JsMap.get clientId (clients s) with
  | None => (s, [])
  | Some client =>
      if negb (truthy (roomId client)) then (s, [])
      else
        match findClientByUserId s (Message.targetUserId m) with
        | None => (s, [ws_send (ws client) (error_envelope "Target user not found")])
        | Some targetClient =>
            (tick s,
             [ws_send (ws targetClient)
                [("type", JVal (Message.type m));
                 ("fromUserId", JVal (userId client));
                 ("data", JVal (Message.data m));
                 ("timestamp", JNum (Date_now (ticks s)))]])
        end
  end.

(** [handleCallUser(clientId, message)] *)
Definition handleCallUser (s : State) (clientId : string) (m : Message.t)
    : result :=
  match JsMap.get clientId (clients s) with
  | None => (s, [])
  | Some client =>
      if negb (truthy (userId client)) then (s, [])
      else
        match findClientByUserId s (Message.targetUserId m) with
        | None => (s, [ws_send (ws client) (error_envelope "Target user not found")])
        | Some targetClient =>
            (tick s,
             [ws_send (ws targetClient)
                [("type", JVal (Str "incoming-call"));
                 ("fromUserId", JVal (userId client));
                 ("callType", JVal (Message.callType m));
                 ("timestamp", JNum (Date_now (ticks s)))]])
        end
  end.

(** [handleCallResponse(clientId, message)] *)
Definition handleCallResponse (s : State) (clientId : string) (m : Message.t)
    : result :=
  match JsMap.get clientId (clients s) with
  | None => (s, [])
  | Some client =>
      if negb (truthy (userId client)) then (s, [])
      else
        match findClientByUserId s (Message.targetUserId m) with
        | None => (s, [])
        | Some targetClient =>
            (tick s,
             [ws_send (ws targetClient)
                [("type", JVal (Str "call-response"));
                 ("fromUserId", JVal (userId client));
                 ("accepted", JVal (Message.accepted m));
                 ("timestamp", JNum (Date_now (ticks s)))]])
        end
  end.

(** [handleEndCall(clientId, message)] *)
Definition handleEndCall (s : State) (clientId : string) (m : Message.t)
    : result :=
  match JsMap.get clientId (clients s) with
  | None => (s, [])
  | Some client =>
      if negb (truthy (userId client)) then (s, [])
      else
        match findClientByUserId s (Message.targetUserId m) with
        | None => (s, [])
        | Some targetClient =>
            (tick s,
             [ws_send (ws targetClient)
                [("type", JVal (Str "call-ended"));
                 ("fromUserId", JVal (userId client));
                 ("timestamp", JNum (Date_now (ticks s)))]])
        end
  end.

(** The [switch (message.type)] of [handleMessage]. *)
Definition dispatch (s : State) (clientId : string) (m : Message.t)
    : exn + result :=
  match Message.type m with
  | Str t =>
      if String.eqb t "register" then
        inr (handleRegister s clientId (Message.userId m))
      else if String.eqb t "join-room" then
        handleJoinRoom s clientId (Message.roomId m)
      else if String.eqb t "leave-room" then
        inr (handleLeaveRoom s clientId)
      else if String.eqb t "chat-message" then
        handleChatMessage s clientId m
      else if String.eqb t "webrtc-offer" || String.eqb t "webrtc-answer"
              || String.eqb t "webrtc-ice-candidate" then
        inr (handleWebRTCSignaling s clientId m)
      else if String.eqb t "call-user" then
        inr (handleCallUser s clientId m)
      else if String.eqb t "call-response" then
        inr (handleCallResponse s clientId m)
      else if String.eqb t "end-call" then
        inr (handleEndCall s clientId m)
      else inr (s, [])
  | _ => inr (s, [])
  end.

(** [handleMessage(clientId, message)] *)
Definition handleMessage (s : State) (clientId : string) (message : parsed)
    : exn + result :=
  match JsMap.get clientId (clients s) with
  | None => inr (s, [])
  | Some _ =>
      match message with
      | PNull => inl TypeError_message
      | PObj m => dispatch s clientId m
      end
  end.

(** ** The connection's event handlers *)

(** [wss.on('connection')] with [clientId] the identifier [generateId()]
    returned; the transport of a new connection is OPEN. *)
Definition on_connection (s : State) (clientId : string) : result :=
  let w := {| conn := clientId; readyState := 1 |} in
  let s1 :=
    with_clients s
      (JsMap.set clientId {| ws := w; userId := Null; roomId := Null |}
         (clients s)) in
  (tick s1,
   [ws_send w
      [("type", JVal (Str "connected"));
       ("clientId", JVal (Str clientId));
       ("timestamp", JNum (Date_now (ticks s1)))]]).

(** [ws.on('message')]: [frame] is [None] when [JSON.parse] throws.  The
    [catch] covers [handleMessage] as well, and replies on the connection's
    own transport. *)
Definition on_message (s : State) (clientId : string) (frame : option parsed)
    : result :=
  let reply :=
    (s, [(clientId, JSON_stringify (error_envelope "Invalid message format"))]) in
  match frame with
  | None => reply
  | Some message =>
      match handleMessage s clientId message with
      | inr r => r
      | inl _ => reply
      end
  end.

(** [ws.on('close')] *)
Definition on_close (s : State) (clientId : string) : result :=
  let '(s1, out) :=
    match JsMap.get clientId (clients s) with
    | Some client =>
        if truthy (roomId client) then leaveRoom s clientId (roomId client)
        else (s, [])
    | None => (s, [])
    end in
  (with_clients s1 (JsMap.delete clientId (clients s1)), out).

(** The WebSocket library moves a transport out of OPEN when the closing
    handshake starts, before it emits ['close']. *)
Definition closing (s : State) (clientId : string) : result :=
  match JsMap.get clientId (clients s) with
  | Some client =>
      (with_clients s (JsMap.set clientId (set_readyState client 2) (clients s)), [])
  | None => (s, [])
  end.

Inductive event : Type :=
| Connection (clientId : string)
| Frame (clientId : string) (frame : option parsed)
| Closing (clientId : string)
| Close (clientId : string).

Definition step (s : State) (e : event) : result :=
  match e with
  | Connection c => on_connection s c
  | Frame c f => on_message s c f
  | Closing c => closing s c
  | Close c => on_close s c
  end.

(** Events are handled one at a time, each to completion. *)
Fixpoint run (s : State) (trace : list event) : State :=
  match trace with
  | [] => s
  | e :: trace' => run (fst (step s e)) trace'
  end.

(** States the server can be in.  [issued] lists the identifiers handed out
    so far: [generateId] is taken to return a new one each time. *)
Inductive reachable : list string -> State -> Prop :=
| reachable_initial : reachable [] initial
| reachable_connection : forall issued s c,
    reachable issued s -> ~ In c issued ->
    reachable (c :: issued) (fst (on_connection s c))
| reachable_message : forall issued s c f,
    reachable issued s -> reachable issued (fst (on_message s c f))
| reachable_closing : forall issued s c,
    reachable issued s -> reachable issued (fst (closing s c))
| reachable_close : forall issued s c,
    reachable issued s -> reachable issued (fst (on_close s c)).

End Server.

(** ** The encryption wrapper *)

(** A JavaScript string is a sequence of UTF-16 code units. *)
Definition jsstring := list N.

(** Storing a number into a [Uint8Array] keeps it modulo 256. *)
Definition to_uint8 (n : N) : byte :=
  match Byte.of_N (n mod 256) with
  | Some b => b
  | None => x00
  end.

Section Crypto.

(** The platform: text codecs, the random source, AES-GCM of
    [crypto.subtle] (a rejected promise is [None]) and the base64 built-ins
    ([None] when they throw). *)
Variable CryptoKey : Type.
Variable TextEncoder_encode : jsstring -> list byte.
Variable TextDecoder_decode : list byte -> jsstring.
Variable getRandomValues : nat -> list byte.
Variable subtle_encrypt : list byte -> CryptoKey -> list byte -> option (list byte).
Variable subtle_decrypt : list byte -> CryptoKey -> list byte -> option (list byte).
Variable btoa : jsstring -> option jsstring.
Variable atob : jsstring -> option jsstring.

(** [arrayBufferToBase64(buffer)]: the loop appends
    [String.fromCharCode(bytes[i])] to [binary], then [btoa(binary)]. *)
Definition arrayBufferToBase64 (buffer : list byte) : option jsstring :=
  let binary :=
    fold_left (fun binary b => binary ++ [Byte.to_N b]) buffer [] in
  btoa binary.

(** [base64ToArrayBuffer(base64)]: [bytes[i] = binary.charCodeAt(i)] for
    every index of [atob(base64)]. *)
Definition base64ToArrayBuffer (base64 : jsstring) : option (list byte) :=
  match atob base64 with
  | Some binary => Some (map to_uint8 binary)
  | None => None
  end.

(** [encryptMessage(message, key)]: a 12-byte IV is drawn and the result is
    the base64 text of the IV followed by the ciphertext. *)
Definition encryptMessage (message : jsstring) (key : CryptoKey)
    : option jsstring :=
  let data := TextEncoder_encode message in
  let iv := getRandomValues 12 in
  match subtle_encrypt iv key data with
  | Some encryptedData =>
      let result := iv ++ encryptedData in
      arrayBufferToBase64 result
  | None => None
  end.

(** [decryptMessage(encryptedMessage, key)]: [data.slice(0, 12)] is the IV,
    [data.slice(12)] the ciphertext. *)
Definition decryptMessage (encryptedMessage : jsstring) (key : CryptoKey)
    : option jsstring :=
  match base64ToArrayBuffer encryptedMessage with
  | Some data =>
      let iv := firstn 12 data in
      let encryptedData := skipn 12 data in
      match subtle_decrypt iv key encryptedData with
      | Some decryptedData => Some (TextDecoder_decode decryptedData)
      | None => None
      end
  | None => None
  end.

End Crypto.

(** ** The platform's text codec *)

(** [TextEncoder] and [TextDecoder] as the wrappers construct them (UTF-8,
    replacement of malformed input, byte order mark removed), following the
    Encoding standard. *)

(** [lo <= x <= hi] *)
Definition in_range (lo hi x : N) : bool := (N.leb lo x) && (N.leb x hi).

(** Surrogate code units. *)
Definition is_lead_surrogate (u : N) : bool := in_range 0xD800 0xDBFF u.
Definition is_trail_surrogate (u : N) : bool := in_range 0xDC00 0xDFFF u.

(** Conversion of a string to scalar values: a lead surrogate followed by a
    trail surrogate is one supplementary code point; a surrogate on its own
    becomes U+FFFD. *)
Fixpoint scalar_values (s : jsstring) : list N :=
  match s with
  | [] => []
  | u :: rest =>
      if is_lead_surrogate u then
        match rest with
        | lo :: rest' =>
            if is_trail_surrogate lo
            then (0x10000 + (u - 0xD800) * 0x400 + (lo - 0xDC00))%N
                 :: scalar_values rest'
            else 0xFFFD%N :: scalar_values rest
        | [] => [0xFFFD%N]
        end
      else if is_trail_surrogate u then 0xFFFD%N :: scalar_values rest
      else u :: scalar_values rest
  end.

(** The UTF-8 bytes of a scalar value. *)
Definition utf8_bytes (cp : N) : list byte :=
  if N.ltb cp 0x80 then [to_uint8 cp]
  else if N.ltb cp 0x800 then
    [to_uint8 (0xC0 + cp / 64); to_uint8 (0x80 + cp mod 64)]
  else if N.ltb cp 0x10000 then
    [to_uint8 (0xE0 + cp / 4096); to_uint8 (0x80 + (cp / 64) mod 64);
     to_uint8 (0x80 + cp mod 64)]
  else
    [to_uint8 (0xF0 + cp / 262144); to_uint8 (0x80 + (cp / 4096) mod 64);
     to_uint8 (0x80 + (cp / 64) mod 64); to_uint8 (0x80 + cp mod 64)].

(** [new TextEncoder().encode(s)] *)
Definition TextEncoder_utf8 (s : jsstring) : list byte :=
  flat_map utf8_bytes (scalar_values s).

(** The state of the UTF-8 decoder: the code point being assembled, the
    continuation bytes seen and needed, and the range the next byte must
    lie in. *)
Record utf8_state : Type := {
  code_point : N;
  bytes_seen : N;
  bytes_needed : N;
  lower_boundary : N;
  upper_boundary : N
}.

Definition utf8_start : utf8_state :=
  {| code_point := 0; bytes_seen := 0; bytes_needed := 0;
     lower_boundary := 0x80; upper_boundary := 0xBF |}.

(** A byte read when no continuation byte is awaited. *)
Definition utf8_lead (b : N) : utf8_state * list N :=
  if N.leb b 0x7F then (utf8_start, [b])
  else if in_range 0xC2 0xDF b then
    ({| code_point := b mod 32; bytes_seen := 0; bytes_needed := 1;
        lower_boundary := 0x80; upper_boundary := 0xBF |}, [])
  else if in_range 0xE0 0xEF b then
    ({| code_point := b mod 16; bytes_seen := 0; bytes_needed := 2;
        lower_boundary := if N.eqb b 0xE0 then 0xA0 else 0x80;
        upper_boundary := if N.eqb b 0xED then 0x9F else 0xBF |}, [])
  else if in_range 0xF0 0xF4 b then
    ({| code_point := b mod 8; bytes_seen := 0; bytes_needed := 3;
        lower_boundary := if N.eqb b 0xF0 then 0x90 else 0x80;
        upper_boundary := if N.eqb b 0xF4 then 0x8F else 0xBF |}, [])
  else (utf8_start, [0xFFFD%N]).

(** One byte of input.  A byte outside the awaited range ends the sequence
    with U+FFFD and is then read again as a first byte.  [b mod 64] is
    [b & 0x3F] and [cp * 64 + _] is [(cp << 6) | _]. *)
Definition utf8_step (st : utf8_state) (b : N) : utf8_state * list N :=
  if N.eqb (bytes_needed st) 0 then utf8_lead b
  else if negb (in_range (lower_boundary st) (upper_boundary st) b) then
    let '(st', out) := utf8_lead b in (st', 0xFFFD%N :: out)
  else
    let cp := (code_point st * 64 + b mod 64)%N in
    let seen := (bytes_seen st + 1)%N in
    if N.eqb seen (bytes_needed st) then (utf8_start, [cp])
    else ({| code_point := cp; bytes_seen := seen;
             bytes_needed := bytes_needed st;
             lower_boundary := 0x80; upper_boundary := 0xBF |}, []).

(** The code points of a byte sequence; a sequence cut short at the end of
    input gives U+FFFD. *)
Fixpoint utf8_decode (st : utf8_state) (bytes : list byte) : list N :=
  match bytes with
  | [] => if N.eqb (bytes_needed st) 0 then [] else [0xFFFD%N]
  | b :: rest =>
      let '(st', out) := utf8_step st (Byte.to_N b) in
      out ++ utf8_decode st' rest
  end.

(** The UTF-16 code units of a code point. *)
Definition code_units (cp : N) : jsstring :=
  if N.ltb cp 0x10000 then [cp]
  else [(0xD800 + (cp - 0x10000) / 0x400)%N;
        (0xDC00 + (cp - 0x10000) mod 0x400)%N].

(** A leading U+FEFF is taken as a byte order mark and dropped. *)
Definition strip_BOM (s : jsstring) : jsstring :=
  match s with
  | u :: rest => if N.eqb u 0xFEFF then rest else s
  | [] => []
  end.

(** [new TextDecoder().decode(bytes)] *)
Definition TextDecoder_utf8 (bytes : list byte) : jsstring :=
  strip_BOM (flat_map code_units (utf8_decode utf8_start bytes)).

(** Strings in which every surrogate is part of a pair. *)
Fixpoint well_formed (s : jsstring) : bool :=
  match s with
  | [] => true
  | u :: rest =>
      if is_lead_surrogate u then
        match rest with
        | lo :: rest' => is_trail_surrogate lo && well_formed rest'
        | [] => false
        end
      else if is_trail_surrogate u then false
      else N.ltb u 0x10000 && well_formed rest
  end.

Definition starts_with_BOM (s : jsstring) : bool :=
  match s with
  | u :: _ => N.eqb u 0xFEFF
  | [] => false
  end.

(** Unicode scalar values. *)
Definition is_scalar (cp : N) : Prop :=
  (cp < 0x110000)%N /\ ~ (0xD800 <= cp <= 0xDFFF)%N.

(** ** Key export, import and exchange *)

Section Keys.

(** The platform: [crypto.subtle.exportKey] and [importKey] in the 'raw'
    format (AES-GCM keys) and the 'spki' format (RSA public keys), RSA-OAEP
    encryption, and the base64 built-ins.  [None] is a rejected promise or a
    thrown exception, which every wrapper logs and rethrows. *)
Variable CryptoKey PublicKey PrivateKey : Type.
Variable exportKey_raw : CryptoKey -> option (list byte).
Variable importKey_raw : list byte -> option CryptoKey.
Variable exportKey_spki : PublicKey -> option (list byte).
Variable importKey_spki : list byte -> option PublicKey.
Variable rsa_oaep_encrypt : PublicKey -> list byte -> option (list byte).
Variable rsa_oaep_decrypt : PrivateKey -> list byte -> option (list byte).
Variable btoa : jsstring -> option jsstring.
Variable atob : jsstring -> option jsstring.

(** [exportPublicKey(publicKey)] *)
Definition exportPublicKey (publicKey : PublicKey) : option jsstring :=
  match exportKey_spki publicKey with
  | Some exported => arrayBufferToBase64 btoa exported
  | None => None
  end.

(** [importPublicKey(keyData)] *)
Definition importPublicKey (keyData : jsstring) : option PublicKey :=
  match base64ToArrayBuffer atob keyData with
  | Some buffer => importKey_spki buffer
  | None => None
  end.

(** [exportSymmetricKey(key)] *)
Definition exportSymmetricKey (key : CryptoKey) : option jsstring :=
  match exportKey_raw key with
  | Some exported => arrayBufferToBase64 btoa exported
  | None => None
  end.

(** [importSymmetricKey(keyData)] *)
Definition importSymmetricKey (keyData : jsstring) : option CryptoKey :=
  match base64ToArrayBuffer atob keyData with
  | Some buffer => importKey_raw buffer
  | None => None
  end.

(** [encryptKey(symmetricKey, publicKey)] *)
Definition encryptKey (symmetricKey : CryptoKey) (publicKey : PublicKey)
    : option jsstring :=
  match exportKey_raw symmetricKey with
  | Some keyData =>
      match rsa_oaep_encrypt publicKey keyData with
      | Some encryptedKey => arrayBufferToBase64 btoa encryptedKey
      | None => None
      end
  | None => None
  end.

(** [decryptKey(encryptedKey, privateKey)] *)
Definition decryptKey (encryptedKey : jsstring) (privateKey : PrivateKey)
    : option CryptoKey :=
  match base64ToArrayBuffer atob encryptedKey with
  | Some encryptedData =>
      match rsa_oaep_decrypt privateKey encryptedData with
      | Some decryptedKey => importKey_raw decryptedKey
      | None => None
      end
  | None => None
  end.

End Keys.

(** ** The browser client's view of who is in the room *)

(** The part of the client's [state] object that the presence handlers read
    and write, and what they do to it.  Their writes to the page (user list,
    call targets, system messages) display this state and are not read back;
    they are left out. *)
Module ClientApp.

Record state : Type := {
  clientId : value;
  userId : value;
  roomId : value;
  users : JsSet.t (K:=value)
}.

Definition with_users (st : state) (u : JsSet.t (K:=value)) : state :=
  {| clientId := clientId st; userId := userId st; roomId := roomId st;
     users := u |}.

(** [new Set(array)]: the elements are added in order. *)
Definition new_Set (array : list value) : JsSet.t (K:=value) :=
  fold_left (fun set u => JsSet.add u set) array [].

(** [handleJoinedRoom(message)], with [message.users] an array:
    [state.users = new Set(message.users.filter(u => u !== state.userId))] *)
Definition handleJoinedRoom (st : state) (message_users : list value) : state :=
  with_users st
    (new_Set (filter (fun u => negb (value_eqb u (userId st))) message_users)).

(** [handleUserJoined(message)] *)
Definition handleUserJoined (st : state) (message_userId : value) : state :=
  if negb (value_eqb message_userId (userId st))
  then with_users st (JsSet.add message_userId (users st))
  else st.

(** [handleUserLeft(message)] *)
Definition handleUserLeft (st : state) (message_userId : value) : state :=
  with_users st (JsSet.delete message_userId (users st)).

(** The presence envelopes of [handleServerMessage]. *)
Inductive presence : Type :=
| JoinedRoom (message_users : list value)
| UserJoined (message_userId : value)
| UserLeft (message_userId : value).

Definition handle (st : state) (e : presence) : state :=
  match e with
  | JoinedRoom l => handleJoinedRoom st l
  | UserJoined u => handleUserJoined st u
  | UserLeft u => handleUserLeft st u
  end.

End ClientApp.

(** ** Invariants of the server state *)

(** No room of the directory has an empty member set. *)
Definition rooms_nonempty (s : State) : Prop :=
  forall r room, JsMap.get r (rooms s) = Some room -> room <> [].

(** Member sets hold no identifier twice. *)
Definition rooms_nodup (s : State) : Prop :=
  forall r, NoDup (room_of s r).

(** The transport stored in a client record is the connection's own. *)
Definition ws_own (s : State) : Prop :=
  forall c client, JsMap.get c (clients s) = Some client -> conn (ws client) = c.

(** A client whose [roomId] is truthy is a member of the room it names. *)
Definition joined_is_member (s : State) : Prop :=
  forall c client,
    JsMap.get c (clients s) = Some client ->
    truthy (roomId client) = true ->
    In c (room_of s (roomId client)).

(** Every member of a room with a truthy identifier is a live client whose
    [roomId] names that room. *)
Definition member_is_joined (s : State) : Prop :=
  forall r c,
    truthy r = true -> In c (room_of s r) ->
    exists client, JsMap.get c (clients s) = Some client /\ roomId client = r.

(** Identifiers in use were handed out by [generateId]. *)
Definition ids_issued (issued : list string) (s : State) : Prop :=
  (forall c client, JsMap.get c (clients s) = Some client -> In c issued) /\
  (forall r c, In c (room_of s r) -> In c issued).

Record invariant (issued : list string) (s : State) : Prop := {
  inv_nonempty : rooms_nonempty s;
  inv_nodup : rooms_nodup s;
  inv_ws : ws_own s;
  inv_joined : joined_is_member s;
  inv_member : member_is_joined s;
  inv_issued : ids_issued issued s
}.

(** ** Vocabulary of the statements *)

(** The remaining handlers only read the registry and the directory. *)
Definition same_tables (s s' : State) : Prop :=
  clients s' = clients s /\ rooms s' = rooms s.

Definition is_webrtc (t : string) : Prop :=
  t = "webrtc-offer" \/ t = "webrtc-answer" \/ t = "webrtc-ice-candidate".

Definition target_not_found (client : Client) : list Send :=
  [ws_send (ws client) (error_envelope "Target user not found")].

(** The transport of a member is OPEN (and the member still has a record). *)
Definition transport_open (s : State) (cId : string) : bool :=
  match JsMap.get cId (clients s) with
  | Some client => Nat.eqb (readyState (ws client)) 1
  | None => false
  end.

Definition chat_message (text : string) : option parsed :=
  Some (PObj (Message.mk (Str "chat-message") Undefined Undefined (Str text)
                (Bool false) Undefined Undefined Undefined Undefined)).

(** ** Envelopes and states of the scenarios *)

Definition register_as (u : string) : option parsed :=
  Some (PObj (Message.mk (Str "register") (Str u) Undefined Undefined Undefined
                Undefined Undefined Undefined Undefined)).

Definition join_room (r : string) : option parsed :=
  Some (PObj (Message.mk (Str "join-room") Undefined (Str r) Undefined Undefined
                Undefined Undefined Undefined Undefined)).

(** A clock that returns the number of the call. *)
Definition clock (k : nat) : Z := Z.of_nat k.

Definition call (type target : string) : Message.t :=
  Message.mk (Str type) Undefined Undefined Undefined Undefined (Str target)
    (Str "sdp") (Str "voice") (Bool true).

(** "A" has registered as "alice"; nobody else is connected. *)
Definition alice_alone : State :=
  run clock initial [Connection "A"; Frame "A" (register_as "alice")].

(** "A" and "B" have registered as "alice" and "bob"; neither is in a room. *)
Definition alice_bob_no_room : State :=
  run clock initial
    [Connection "A"; Frame "A" (register_as "alice");
     Connection "B"; Frame "B" (register_as "bob")].

(** Both are in room "r1". *)
Definition alice_bob_in_r1 : list event :=
  [Connection "A"; Frame "A" (register_as "alice"); Frame "A" (join_room "r1");
   Connection "B"; Frame "B" (register_as "bob"); Frame "B" (join_room "r1")].

Definition alice_record : Client :=
  {| ws := {| conn := "A"; readyState := 1 |};
     userId := Str "alice"; roomId := Null |}.

Definition bob_record : Client :=
  {| ws := {| conn := "B"; readyState := 1 |};
     userId := Str "bob"; roomId := Null |}.

(** ** Lemmas on [Map] and [Set] *)

Section MapFacts.
Context {K V : Type} `{EqKey K}.
Implicit Types (k : K) (v : V) (m : JsMap.t (K:=K) (V:=V)).

Lemma key_eqb_refl : forall k, key_eqb k k = true.
Proof. intro k. now apply key_eqb_eq. Qed.

Lemma key_eqb_neq : forall k k', k <> k' -> key_eqb k k' = false.
Proof.
  intros k k' Hne. destruct (key_eqb k k') eqn:E; [|reflexivity].
  apply key_eqb_eq in E. contradiction.
Qed.

Lemma key_eqb_false : forall k k', key_eqb k k' = false -> k <> k'.
Proof.
  intros k k' E ->. rewrite key_eqb_refl in E. discriminate.
Qed.

Lemma get_set_same : forall k v m, JsMap.get k (JsMap.set k v m) = Some v.
Proof.
  intros k v m. induction m as [|[k' v'] m IH]; simpl.
  - now rewrite key_eqb_refl.
  - destruct (key_eqb k' k) eqn:E; simpl; rewrite E; auto.
Qed.

Lemma get_set_other : forall k k' v m,
    k <> k' -> JsMap.get k' (JsMap.set k v m) = JsMap.get k' m.
Proof.
  intros k k' v m Hne. induction m as [|[k0 v0] m IH]; simpl.
  - now rewrite key_eqb_neq.
  - destruct (key_eqb k0 k) eqn:E; simpl.
    + apply key_eqb_eq in E. subst k0. now rewrite key_eqb_neq.
    + now rewrite IH.
Qed.

Lemma get_delete_same : forall k m, JsMap.get k (JsMap.delete k m) = None.
Proof.
  intros k m. induction m as [|[k0 v0] m IH]; simpl; auto.
  destruct (key_eqb k0 k) eqn:E; simpl; auto. now rewrite E.
Qed.

Lemma get_delete_other : forall k k' m,
    k <> k' -> JsMap.get k' (JsMap.delete k m) = JsMap.get k' m.
Proof.
  intros k k' m Hne. induction m as [|[k0 v0] m IH]; simpl; auto.
  destruct (key_eqb k0 k) eqn:E; simpl.
  - apply key_eqb_eq in E. subst k0. now rewrite key_eqb_neq.
  - now rewrite IH.
Qed.

Lemma get_set : forall k k' v m,
    JsMap.get k' (JsMap.set k v m) =
    if key_eqb k k' then Some v else JsMap.get k' m.
Proof.
  intros k k' v m. destruct (key_eqb k k') eqn:E.
  - apply key_eqb_eq in E. subst. apply get_set_same.
  - apply get_set_other. now apply key_eqb_false.
Qed.

Lemma get_delete : forall k k' m,
    JsMap.get k' (JsMap.delete k m) =
    if key_eqb k k' then None else JsMap.get k' m.
Proof.
  intros k k' m. destruct (key_eqb k k') eqn:E.
  - apply key_eqb_eq in E. subst. apply get_delete_same.
  - apply get_delete_other. now apply key_eqb_false.
Qed.

End MapFacts.

Section SetFacts.
Context {K : Type} `{EqKey K}.
Implicit Types (k x : K) (s : JsSet.t (K:=K)).

Lemma set_has_true : forall k s, JsSet.has k s = true <-> In k s.
Proof.
  intros k s. unfold JsSet.has. rewrite existsb_exists. split.
  - intros [x [Hin E]]. apply key_eqb_eq in E. now subst.
  - intro Hin. exists k. split; auto. apply key_eqb_refl.
Qed.

Lemma in_set_add : forall x k s, In x (JsSet.add k s) <-> In x s \/ x = k.
Proof.
  intros x k s. unfold JsSet.add. destruct (JsSet.has k s) eqn:E.
  - apply set_has_true in E. split; [auto | intros [?| ->]; auto].
  - rewrite in_app_iff. simpl. intuition.
Qed.

Lemma in_set_delete : forall x k s,
    In x (JsSet.delete k s) <-> In x s /\ x <> k.
Proof.
  intros x k s. unfold JsSet.delete. rewrite filter_In. split.
  - intros [Hin E]. split; auto. apply negb_true_iff in E.
    now apply key_eqb_false.
  - intros [Hin Hne]. split; auto. apply negb_true_iff.
    now apply key_eqb_neq.
Qed.

Lemma set_add_nonempty : forall k s, JsSet.add k s <> [].
Proof.
  intros k s E. assert (Hin : In k (JsSet.add k s)) by (apply in_set_add; auto).
  rewrite E in Hin. contradiction.
Qed.

Lemma NoDup_set_add : forall k s, NoDup s -> NoDup (JsSet.add k s).
Proof.
  intros k s Hnd. unfold JsSet.add. destruct (JsSet.has k s) eqn:E; auto.
  assert (Hnin : ~ In k s).
  { intro Hin. apply set_has_true in Hin. congruence. }
  clear E. induction Hnd as [|y l Hy Hl IH]; simpl.
  - constructor; [intros [] | constructor].
  - constructor.
    + rewrite in_app_iff. simpl. intros [?|[?|[]]]; [contradiction|].
      subst. apply Hnin. now left.
    + apply IH. intro Hin. apply Hnin. now right.
Qed.

Lemma NoDup_set_delete : forall k s, NoDup s -> NoDup (JsSet.delete k s).
Proof. intros k s Hnd. now apply NoDup_filter. Qed.

End SetFacts.

(** ** Effect of the handlers on the state *)

Section Effects.
Variable Date_now : nat -> Z.

Lemma leaveRoom_clients : forall s c r,
    clients (fst (leaveRoom Date_now s c r)) =
    match JsMap.get c (clients s) with
    | Some client => JsMap.set c (set_roomId client Null) (clients s)
    | None => clients s
    end.
Proof.
  intros s c r. unfold leaveRoom.
  destruct (JsMap.get r (rooms s)) as [room|];
    destruct (JsMap.get c (clients s)) as [client|]; simpl; auto;
    try destruct (truthy (userId client));
    destruct (Nat.eqb (JsSet.size (JsSet.delete c room)) 0); reflexivity.
Qed.

Lemma leaveRoom_rooms : forall s c r,
    rooms (fst (leaveRoom Date_now s c r)) =
    match JsMap.get r (rooms s) with
    | Some room =>
        if Nat.eqb (JsSet.size (JsSet.delete c room)) 0
        then JsMap.delete r (JsMap.set r (JsSet.delete c room) (rooms s))
        else JsMap.set r (JsSet.delete c room) (rooms s)
    | None => rooms s
    end.
Proof.
  intros s c r. unfold leaveRoom.
  destruct (JsMap.get r (rooms s)) as [room|];
    destruct (JsMap.get c (clients s)) as [client|]; simpl; auto;
    try destruct (truthy (userId client));
    destruct (Nat.eqb (JsSet.size (JsSet.delete c room)) 0); reflexivity.
Qed.

Lemma leaveRoom_get_room : forall s c r r',
    JsMap.get r' (rooms (fst (leaveRoom Date_now s c r))) =
    if value_eqb r r'
    then match JsMap.get r' (rooms s) with
         | Some room =>
             match JsSet.delete c room with
             | [] => None
             | x :: l => Some (x :: l)
             end
         | None => None
         end
    else JsMap.get r' (rooms s).
Proof.
  intros s c r r'. rewrite leaveRoom_rooms.
  destruct (value_eqb r r') eqn:E.
  - apply value_eqb_eq in E. subst r'.
    destruct (JsMap.get r (rooms s)) as [room|] eqn:G.
    + unfold JsSet.size. destruct (JsSet.delete c room) as [|x l]; simpl.
      * apply get_delete_same.
      * apply get_set_same.
    + exact G.
  - assert (Hne : r <> r') by (apply (key_eqb_false (K:=value)); exact E).
    destruct (JsMap.get r (rooms s)) as [room|]; auto.
    destruct (Nat.eqb (JsSet.size (JsSet.delete c room)) 0).
    + rewrite get_delete_other by exact Hne. now rewrite get_set_other.
    + now rewrite get_set_other.
Qed.

Lemma leaveRoom_room_of : forall s c r r',
    room_of (fst (leaveRoom Date_now s c r)) r' =
    if value_eqb r r' then JsSet.delete c (room_of s r') else room_of s r'.
Proof.
  intros s c r r'. unfold room_of. rewrite leaveRoom_get_room.
  destruct (value_eqb r r'); auto.
  destruct (JsMap.get r' (rooms s)) as [room|]; auto.
  destruct (JsSet.delete c room); auto.
Qed.

Lemma leaveRoom_get_client : forall s c r c',
    JsMap.get c' (clients (fst (leaveRoom Date_now s c r))) =
    if String.eqb c c'
    then option_map (fun client => set_roomId client Null) (JsMap.get c' (clients s))
    else JsMap.get c' (clients s).
Proof.
  intros s c r c'. rewrite leaveRoom_clients.
  destruct (String.eqb c c') eqn:E.
  - apply String.eqb_eq in E. subst c'.
    destruct (JsMap.get c (clients s)) as [client|] eqn:G; simpl.
    + apply get_set_same.
    + exact G.
  - destruct (JsMap.get c (clients s)) as [client|]; auto.
    rewrite get_set. simpl. now rewrite E.
Qed.

Lemma enterRoom_get_client : forall s1 c client r c',
    JsMap.get c' (clients (enterRoom s1 c client r)) =
    if String.eqb c c' then Some (set_roomId client r)
    else JsMap.get c' (clients s1).
Proof.
  intros s1 c client r c'. unfold enterRoom. simpl. rewrite get_set. simpl.
  destruct (String.eqb c c'); auto.
  destruct (JsMap.has r (rooms s1)); reflexivity.
Qed.

Lemma enterRoom_get_room : forall s1 c client r r',
    JsMap.get r' (rooms (enterRoom s1 c client r)) =
    if value_eqb r r' then Some (JsSet.add c (room_of s1 r'))
    else JsMap.get r' (rooms s1).
Proof.
  intros s1 c client r r'. unfold enterRoom. simpl. rewrite get_set. simpl.
  destruct (value_eqb r r') eqn:E.
  - apply value_eqb_eq in E. subst r'. f_equal. f_equal.
    unfold room_of, JsMap.has.
    destruct (JsMap.get r (rooms s1)) eqn:G1; simpl.
    + now rewrite G1.
    + now rewrite get_set_same.
  - destruct (JsMap.has r (rooms s1)); auto. simpl.
    rewrite get_set. simpl. now rewrite E.
Qed.

Lemma handleJoinRoom_ok : forall s c r client,
    JsMap.get c (clients s) = Some client ->
    truthy (userId client) = true ->
    exists out,
      handleJoinRoom Date_now s c r =
      inr (tick (tick (enterRoom (after_leave Date_now s c client) c client r)), out).
Proof.
  intros s c r client G Hu. unfold handleJoinRoom, after_leave.
  rewrite G, Hu. cbv beta iota delta [negb].
  destruct (truthy (roomId client)).
  - destruct (leaveRoom Date_now s c (roomId client)) as [s1 out1].
    eexists. reflexivity.
  - eexists. reflexivity.
Qed.

Lemma enterRoom_room_of : forall s1 c client r r',
    room_of (enterRoom s1 c client r) r' =
    if value_eqb r r' then JsSet.add c (room_of s1 r') else room_of s1 r'.
Proof.
  intros. unfold room_of at 1. rewrite enterRoom_get_room.
  destruct (value_eqb r r'); reflexivity.
Qed.

(** *** The invariant is preserved *)

Lemma invariant_ext : forall issued s s',
    clients s' = clients s -> rooms s' = rooms s ->
    invariant issued s -> invariant issued s'.
Proof.
  intros issued s s' Hc Hr [I1 I2 I3 I4 I5 [I6 I7]].
  split; unfold rooms_nonempty, rooms_nodup, ws_own, joined_is_member,
    member_is_joined, ids_issued, room_of in *; rewrite ?Hc, ?Hr; auto.
Qed.

Lemma invariant_tick : forall issued s,
    invariant issued s -> invariant issued (tick s).
Proof. intros. now apply invariant_ext with s. Qed.

Lemma invariant_leaveRoom : forall issued s c client,
    invariant issued s ->
    JsMap.get c (clients s) = Some client ->
    invariant issued (fst (leaveRoom Date_now s c (roomId client))).
Proof.
  intros issued s c client [I1 I2 I3 I4 I5 [I6 I7]] G.
  set (r := roomId client).
  split.
  - intros r' room. rewrite leaveRoom_get_room.
    destruct (value_eqb r r').
    + destruct (JsMap.get r' (rooms s)) as [room0|]; [|discriminate].
      destruct (JsSet.delete c room0); [discriminate|].
      intros E. injection E as <-. discriminate.
    + apply I1.
  - intros r'. rewrite leaveRoom_room_of.
    destruct (value_eqb r r'); [apply NoDup_set_delete|]; apply I2.
  - intros c' client'. rewrite leaveRoom_get_client.
    destruct (String.eqb c c') eqn:E; [|apply I3].
    destruct (JsMap.get c' (clients s)) as [cl|] eqn:G'; [|discriminate].
    simpl. intros E'. injection E' as <-. simpl. now apply I3.
  - intros c' client'. rewrite leaveRoom_get_client.
    destruct (String.eqb c c') eqn:E.
    + destruct (JsMap.get c' (clients s)) as [cl|]; [|discriminate].
      simpl. intros E'. injection E' as <-. simpl. discriminate.
    + intros G' T. rewrite leaveRoom_room_of.
      apply String.eqb_neq in E.
      destruct (value_eqb r (roomId client')); [|now apply I4].
      apply in_set_delete. split; [now apply I4 | congruence].
  - intros r' m T. rewrite leaveRoom_room_of, leaveRoom_get_client.
    destruct (value_eqb r r') eqn:E.
    + intros Hin. apply in_set_delete in Hin. destruct Hin as [Hin Hne].
      destruct (String.eqb c m) eqn:Ecm.
      * apply String.eqb_eq in Ecm. congruence.
      * now apply I5.
    + intros Hin. destruct (I5 r' m T Hin) as (cl & Gm & Rm).
      destruct (String.eqb c m) eqn:Ecm; [|eauto].
      apply String.eqb_eq in Ecm. subst m. rewrite G in Gm.
      injection Gm as <-. subst r'. unfold r in E.
      rewrite value_eqb_refl in E. discriminate.
  - split.
    + intros c' client'. rewrite leaveRoom_get_client.
      destruct (String.eqb c c'); [|apply I6].
      destruct (JsMap.get c' (clients s)) as [cl|] eqn:G'; [|discriminate].
      intros _. now apply I6 with cl.
    + intros r' m. rewrite leaveRoom_room_of.
      destruct (value_eqb r r'); [|apply I7].
      intros Hin. apply in_set_delete in Hin. apply I7 with r'. tauto.
Qed.

Lemma invariant_enterRoom : forall issued s1 c client client1 r,
    invariant issued s1 ->
    JsMap.get c (clients s1) = Some client1 ->
    conn (ws client) = conn (ws client1) ->
    truthy (roomId client1) = false ->
    invariant issued (enterRoom s1 c client r).
Proof.
  intros issued s1 c client client1 r [I1 I2 I3 I4 I5 [I6 I7]] G Hws Hf.
  split.
  - intros r' room. rewrite enterRoom_get_room.
    destruct (value_eqb r r'); [|apply I1].
    intros E. injection E as <-. apply set_add_nonempty.
  - intros r'. rewrite enterRoom_room_of.
    destruct (value_eqb r r'); [apply NoDup_set_add|]; apply I2.
  - intros c' client'. rewrite enterRoom_get_client.
    destruct (String.eqb c c') eqn:E; [|apply I3].
    apply String.eqb_eq in E. subst c'.
    intros E'. injection E' as <-. simpl. rewrite Hws. now apply I3.
  - intros c' client'. rewrite enterRoom_get_client.
    destruct (String.eqb c c') eqn:E.
    + apply String.eqb_eq in E. subst c'.
      intros E'. injection E' as <-. simpl. intros _.
      rewrite enterRoom_room_of, value_eqb_refl.
      apply in_set_add. now right.
    + intros G' T. rewrite enterRoom_room_of.
      destruct (value_eqb r (roomId client')); [|now apply I4].
      apply in_set_add. left. now apply I4.
  - intros r' m T. rewrite enterRoom_room_of, enterRoom_get_client.
    destruct (value_eqb r r') eqn:E.
    + apply value_eqb_eq in E. subst r'.
      destruct (String.eqb c m) eqn:Ecm; [eauto|].
      intros Hin. apply in_set_add in Hin. destruct Hin as [Hin | ->].
      * now apply I5.
      * rewrite String.eqb_refl in Ecm. discriminate.
    + intros Hin. destruct (I5 r' m T Hin) as (cl & Gm & Rm).
      destruct (String.eqb c m) eqn:Ecm; [|eauto].
      apply String.eqb_eq in Ecm. subst m. rewrite G in Gm.
      injection Gm as <-. congruence.
  - split.
    + intros c' client'. rewrite enterRoom_get_client.
      destruct (String.eqb c c') eqn:E; [|apply I6].
      apply String.eqb_eq in E. subst c'. intros _. now apply I6 with client1.
    + intros r' m. rewrite enterRoom_room_of.
      destruct (value_eqb r r'); [|apply I7].
      intros Hin. apply in_set_add in Hin. destruct Hin as [Hin | ->].
      * now apply I7 with r'.
      * now apply I6 with client1.
Qed.

Lemma invariant_update_client : forall issued s c client client',
    invariant issued s ->
    JsMap.get c (clients s) = Some client ->
    conn (ws client') = conn (ws client) ->
    roomId client' = roomId client ->
    invariant issued (with_clients s (JsMap.set c client' (clients s))).
Proof.
  intros issued s c client client' [I1 I2 I3 I4 I5 [I6 I7]] G Hws Hr.
  split; try assumption.
  - intros c' cl. simpl. rewrite get_set. simpl.
    destruct (String.eqb c c') eqn:E; [|apply I3].
    apply String.eqb_eq in E. subst c'. intros E'. injection E' as <-.
    rewrite Hws. now apply I3.
  - intros c' cl. simpl. rewrite get_set. simpl.
    destruct (String.eqb c c') eqn:E; [|apply (I4 c' cl)].
    apply String.eqb_eq in E. subst c'. intros E'. injection E' as <-.
    rewrite Hr. now apply (I4 c client).
  - intros r m T Hin. simpl. rewrite get_set. simpl.
    destruct (I5 r m T Hin) as (cl & Gm & Rm).
    destruct (String.eqb c m) eqn:E; [|eauto].
    apply String.eqb_eq in E. subst m. exists client'. split; congruence.
  - split; [|exact I7].
    intros c' cl. simpl. rewrite get_set. simpl.
    destruct (String.eqb c c') eqn:E; [|apply I6].
    apply String.eqb_eq in E. subst c'. intros _. now apply I6 with client.
Qed.

Lemma invariant_delete_client : forall issued s c,
    invariant issued s ->
    (forall client, JsMap.get c (clients s) = Some client ->
                    truthy (roomId client) = false) ->
    invariant issued (with_clients s (JsMap.delete c (clients s))).
Proof.
  intros issued s c [I1 I2 I3 I4 I5 [I6 I7]] Hf.
  split; try assumption.
  - intros c' cl. simpl. rewrite get_delete. simpl.
    destruct (String.eqb c c'); [discriminate | apply I3].
  - intros c' cl. simpl. rewrite get_delete. simpl.
    destruct (String.eqb c c'); [discriminate | apply (I4 c' cl)].
  - intros r m T Hin. simpl. rewrite get_delete. simpl.
    destruct (I5 r m T Hin) as (cl & Gm & Rm).
    destruct (String.eqb c m) eqn:E; [|eauto].
    apply String.eqb_eq in E. subst m. apply Hf in Gm. congruence.
  - split; [|exact I7].
    intros c' cl. simpl. rewrite get_delete. simpl.
    destruct (String.eqb c c'); [discriminate | apply I6].
Qed.

Lemma invariant_add_client : forall issued s c w,
    invariant issued s -> ~ In c issued -> conn w = c ->
    invariant (c :: issued)
      (with_clients s
         (JsMap.set c {| ws := w; userId := Null; roomId := Null |} (clients s))).
Proof.
  intros issued s c w [I1 I2 I3 I4 I5 [I6 I7]] Hfresh Hw.
  split; try assumption.
  - intros c' cl. simpl. rewrite get_set. simpl.
    destruct (String.eqb c c') eqn:E; [|apply I3].
    apply String.eqb_eq in E. subst c'. intros E'. now injection E' as <-.
  - intros c' cl. simpl. rewrite get_set. simpl.
    destruct (String.eqb c c') eqn:E; [|apply (I4 c' cl)].
    intros E'. injection E' as <-. discriminate.
  - intros r m T Hin. simpl. rewrite get_set. simpl.
    destruct (String.eqb c m) eqn:E; [|now apply I5].
    apply String.eqb_eq in E. subst m. exfalso. apply Hfresh. now apply I7 with r.
  - split.
    + intros c' cl. simpl. rewrite get_set. simpl.
      destruct (String.eqb c c') eqn:E.
      * apply String.eqb_eq in E. now left.
      * intros G. right. now apply I6 with cl.
    + intros r m Hin. right. now apply I7 with r.
Qed.

Lemma invariant_handleRegister : forall issued s c u,
    invariant issued s -> invariant issued (fst (handleRegister Date_now s c u)).
Proof.
  intros issued s c u I. unfold handleRegister.
  destruct (JsMap.get c (clients s)) as [client|] eqn:G; simpl; auto.
  apply invariant_tick. now apply invariant_update_client with client.
Qed.

Lemma invariant_after_leave : forall issued s c client,
    invariant issued s ->
    JsMap.get c (clients s) = Some client ->
    invariant issued (after_leave Date_now s c client) /\
    exists client1,
      JsMap.get c (clients (after_leave Date_now s c client)) = Some client1 /\
      conn (ws client1) = conn (ws client) /\
      truthy (roomId client1) = false.
Proof.
  intros issued s c client I G. unfold after_leave.
  destruct (truthy (roomId client)) eqn:T.
  - split; [now apply invariant_leaveRoom|].
    exists (set_roomId client Null).
    rewrite leaveRoom_get_client, String.eqb_refl, G. auto.
  - split; [assumption|]. exists client. auto.
Qed.

Lemma invariant_handleJoinRoom : forall issued s c r res,
    invariant issued s ->
    handleJoinRoom Date_now s c r = inr res ->
    invariant issued (fst res).
Proof.
  intros issued s c r res I Hj.
  destruct (JsMap.get c (clients s)) as [client|] eqn:G.
  - destruct (truthy (userId client)) eqn:Hu.
    + destruct (@handleJoinRoom_ok s c r client G Hu) as [out E].
      rewrite E in Hj. injection Hj as <-. simpl.
      destruct (invariant_after_leave issued s c client I G) as (I1 & client1 & G1 & Hws & Hf).
      do 2 apply invariant_tick.
      now apply invariant_enterRoom with client1.
    + unfold handleJoinRoom in Hj. rewrite G, Hu in Hj. simpl in Hj.
      now injection Hj as <-.
  - unfold handleJoinRoom in Hj. rewrite G in Hj. discriminate.
Qed.

Lemma invariant_handleLeaveRoom : forall issued s c,
    invariant issued s -> invariant issued (fst (handleLeaveRoom Date_now s c)).
Proof.
  intros issued s c I. unfold handleLeaveRoom.
  destruct (JsMap.get c (clients s)) as [client|] eqn:G; auto.
  destruct (truthy (roomId client)); auto.
  now apply invariant_leaveRoom.
Qed.

Lemma handleChatMessage_tables : forall s c m res,
    handleChatMessage Date_now s c m = inr res -> same_tables s (fst res).
Proof.
  intros s c m res. unfold handleChatMessage.
  destruct (JsMap.get c (clients s)) as [client|]; [|discriminate].
  destruct (truthy (roomId client)); simpl; intros E; injection E as <-;
    split; reflexivity.
Qed.

Lemma handleWebRTCSignaling_tables : forall s c m,
    same_tables s (fst (handleWebRTCSignaling Date_now s c m)).
Proof.
  intros s c m. unfold handleWebRTCSignaling.
  destruct (JsMap.get c (clients s)) as [client|]; [|split; reflexivity].
  destruct (truthy (roomId client)); simpl; [|split; reflexivity].
  destruct (findClientByUserId s (Message.targetUserId m)); split; reflexivity.
Qed.

Lemma handleCallUser_tables : forall s c m,
    same_tables s (fst (handleCallUser Date_now s c m)).
Proof.
  intros s c m. unfold handleCallUser.
  destruct (JsMap.get c (clients s)) as [client|]; [|split; reflexivity].
  destruct (truthy (userId client)); simpl; [|split; reflexivity].
  destruct (findClientByUserId s (Message.targetUserId m)); split; reflexivity.
Qed.

Lemma handleCallResponse_tables : forall s c m,
    same_tables s (fst (handleCallResponse Date_now s c m)).
Proof.
  intros s c m. unfold handleCallResponse.
  destruct (JsMap.get c (clients s)) as [client|]; [|split; reflexivity].
  destruct (truthy (userId client)); simpl; [|split; reflexivity].
  destruct (findClientByUserId s (Message.targetUserId m)); split; reflexivity.
Qed.

Lemma handleEndCall_tables : forall s c m,
    same_tables s (fst (handleEndCall Date_now s c m)).
Proof.
  intros s c m. unfold handleEndCall.
  destruct (JsMap.get c (clients s)) as [client|]; [|split; reflexivity].
  destruct (truthy (userId client)); simpl; [|split; reflexivity].
  destruct (findClientByUserId s (Message.targetUserId m)); split; reflexivity.
Qed.

Lemma invariant_same_tables : forall issued s s',
    same_tables s s' -> invariant issued s -> invariant issued s'.
Proof. intros issued s s' [Hc Hr]. now apply invariant_ext. Qed.

Lemma invariant_dispatch : forall issued s c m res,
    invariant issued s ->
    dispatch Date_now s c m = inr res ->
    invariant issued (fst res).
Proof.
  intros issued s c m res I. unfold dispatch.
  destruct (Message.type m) as [| | |t];
    try (intros E; injection E as <-; exact I).
  repeat match goal with
         | |- context [if ?b then _ else _] => destruct b
         end;
    try (intros E; injection E as <-).
  - now apply invariant_handleRegister.
  - now apply invariant_handleJoinRoom.
  - now apply invariant_handleLeaveRoom.
  - intros E. apply handleChatMessage_tables in E.
    now apply invariant_same_tables with s.
  - eapply invariant_same_tables; [apply handleWebRTCSignaling_tables | exact I].
  - eapply invariant_same_tables; [apply handleCallUser_tables | exact I].
  - eapply invariant_same_tables; [apply handleCallResponse_tables | exact I].
  - eapply invariant_same_tables; [apply handleEndCall_tables | exact I].
  - exact I.
Qed.

Lemma invariant_on_message : forall issued s c f,
    invariant issued s -> invariant issued (fst (on_message Date_now s c f)).
Proof.
  intros issued s c f I. unfold on_message.
  destruct f as [message|]; auto.
  destruct (handleMessage Date_now s c message) as [e|res] eqn:E; auto.
  unfold handleMessage in E.
  destruct (JsMap.get c (clients s)).
  - destruct message; [discriminate|]. now apply (invariant_dispatch issued s c m res I).
  - now injection E as <-.
Qed.

Lemma invariant_on_connection : forall issued s c,
    invariant issued s -> ~ In c issued ->
    invariant (c :: issued) (fst (on_connection Date_now s c)).
Proof.
  intros issued s c I Hfresh. unfold on_connection. simpl.
  apply invariant_tick. now apply invariant_add_client.
Qed.

Lemma invariant_on_close : forall issued s c,
    invariant issued s -> invariant issued (fst (on_close Date_now s c)).
Proof.
  intros issued s c I. unfold on_close.
  destruct (JsMap.get c (clients s)) as [client|] eqn:G.
  - destruct (truthy (roomId client)) eqn:T.
    + destruct (leaveRoom Date_now s c (roomId client)) as [s1 out] eqn:L.
      simpl. assert (Hs1 : s1 = fst (leaveRoom Date_now s c (roomId client)))
        by now rewrite L.
      subst s1. apply invariant_delete_client.
      * now apply invariant_leaveRoom.
      * intros cl. rewrite leaveRoom_get_client, String.eqb_refl, G. simpl.
        intros E. now injection E as <-.
    + simpl. apply invariant_delete_client; auto.
      intros cl. rewrite G. intros E. now injection E as <-.
  - simpl. apply invariant_delete_client; auto.
    intros cl. rewrite G. discriminate.
Qed.

Lemma invariant_closing : forall issued s c,
    invariant issued s -> invariant issued (fst (closing s c)).
Proof.
  intros issued s c I. unfold closing.
  destruct (JsMap.get c (clients s)) as [client|] eqn:G; auto.
  simpl. now apply invariant_update_client with client.
Qed.

Lemma invariant_initial : invariant [] initial.
Proof.
  split; try (intros ? ? ?; discriminate).
  - intros r. constructor.
  - intros ? ? _ [].
  - split; [intros ? ? ?; discriminate | intros ? ? []].
Qed.

Lemma reachable_invariant : forall issued s,
    reachable Date_now issued s -> invariant issued s.
Proof.
  intros issued s R. induction R.
  - apply invariant_initial.
  - now apply invariant_on_connection.
  - now apply invariant_on_message.
  - now apply invariant_closing.
  - now apply invariant_on_close.
Qed.

End Effects.

(** ** The room directory holds no empty room *)

Section Directory.
Variable Date_now : nat -> Z.

Lemma rooms_nonempty_leaveRoom : forall s c r,
    rooms_nonempty s -> rooms_nonempty (fst (leaveRoom Date_now s c r)).
Proof.
  intros s c r I r' room. rewrite leaveRoom_get_room.
  destruct (value_eqb r r'); [|apply I].
  destruct (JsMap.get r' (rooms s)) as [room0|]; [|discriminate].
  destruct (JsSet.delete c room0); [discriminate|].
  intros E. injection E as <-. discriminate.
Qed.

Lemma rooms_nonempty_enterRoom : forall s c client r,
    rooms_nonempty s -> rooms_nonempty (enterRoom s c client r).
Proof.
  intros s c client r I r' room. rewrite enterRoom_get_room.
  destruct (value_eqb r r'); [|apply I].
  intros E. injection E as <-. apply set_add_nonempty.
Qed.

Lemma rooms_nonempty_ext : forall s s',
    rooms s' = rooms s -> rooms_nonempty s -> rooms_nonempty s'.
Proof. intros s s' E I r room. rewrite E. apply I. Qed.

Lemma rooms_nonempty_dispatch : forall s c m res,
    rooms_nonempty s -> dispatch Date_now s c m = inr res ->
    rooms_nonempty (fst res).
Proof.
  intros s c m res I. unfold dispatch.
  destruct (Message.type m) as [| | |t];
    try (intros E; injection E as <-; exact I).
  repeat match goal with
         | |- context [if ?b then _ else _] => destruct b
         end;
    try (intros E; injection E as <-).
  - unfold handleRegister.
    destruct (JsMap.get c (clients s)); simpl; auto.
  - unfold handleJoinRoom.
    destruct (JsMap.get c (clients s)) as [client|]; [|discriminate].
    destruct (truthy (userId client)); cbv beta iota delta [negb].
    + destruct (truthy (roomId client)).
      * pose proof (rooms_nonempty_leaveRoom s c (roomId client) I) as I1.
        destruct (leaveRoom Date_now s c (roomId client)) as [s1 out1].
        intros E. injection E as <-. simpl.
        apply rooms_nonempty_ext with (enterRoom s1 c client (Message.roomId m));
          [reflexivity | now apply rooms_nonempty_enterRoom].
      * intros E. injection E as <-. simpl.
        apply rooms_nonempty_ext with (enterRoom s c client (Message.roomId m));
          [reflexivity | now apply rooms_nonempty_enterRoom].
    + intros E. now injection E as <-.
  - unfold handleLeaveRoom.
    destruct (JsMap.get c (clients s)) as [client|]; auto.
    destruct (truthy (roomId client)); auto.
    now apply rooms_nonempty_leaveRoom.
  - intros E. apply handleChatMessage_tables in E.
    now apply rooms_nonempty_ext with s; [apply E|].
  - eapply rooms_nonempty_ext; [apply handleWebRTCSignaling_tables | exact I].
  - eapply rooms_nonempty_ext; [apply handleCallUser_tables | exact I].
  - eapply rooms_nonempty_ext; [apply handleCallResponse_tables | exact I].
  - eapply rooms_nonempty_ext; [apply handleEndCall_tables | exact I].
  - exact I.
Qed.

Lemma rooms_nonempty_step : forall s e,
    rooms_nonempty s -> rooms_nonempty (fst (step Date_now s e)).
Proof.
  intros s [c|c f|c|c] I; simpl.
  - exact I.
  - unfold on_message. destruct f as [message|]; auto.
    destruct (handleMessage Date_now s c message) as [e|res] eqn:E; auto.
    unfold handleMessage in E. destruct (JsMap.get c (clients s)).
    + destruct message; [discriminate|].
      now apply (rooms_nonempty_dispatch s c m res I).
    + now injection E as <-.
  - unfold closing. destruct (JsMap.get c (clients s)); auto.
  - unfold on_close. destruct (JsMap.get c (clients s)) as [client|]; auto.
    destruct (truthy (roomId client)); auto.
    pose proof (rooms_nonempty_leaveRoom s c (roomId client) I) as I1.
    destruct (leaveRoom Date_now s c (roomId client)) as [s1 out1]. exact I1.
Qed.

Lemma rooms_nonempty_run : forall trace s,
    rooms_nonempty s -> rooms_nonempty (run Date_now s trace).
Proof.
  induction trace as [|e trace IH]; intros s I; simpl; auto.
  apply IH. now apply rooms_nonempty_step.
Qed.

Lemma rooms_nonempty_initial : rooms_nonempty initial.
Proof. intros r room E. discriminate. Qed.

(** C1. In every state the server reaches by handling envelopes and
    transport events, a room identifier is a key of [rooms] if and only if
    its member set holds at least one connection; and [leaveRoom], through
    which every leave goes (leave-room, a join from another room, transport
    close), deletes the entry of a room whose member set it empties. *)
Theorem room_present_iff_has_member :
  (forall trace r,
      JsMap.has r (rooms (run Date_now initial trace)) = true <->
      room_of (run Date_now initial trace) r <> []) /\
  (forall s c r,
      JsSet.delete c (room_of s r) = [] ->
      JsMap.has r (rooms (fst (leaveRoom Date_now s c r))) = false).
Proof.
  split.
  - intros trace r.
    pose proof (rooms_nonempty_run trace initial rooms_nonempty_initial r) as I.
    unfold JsMap.has, room_of in *.
    destruct (JsMap.get r (rooms (run Date_now initial trace))) as [room|].
    + split; [intros _; now apply I | reflexivity].
    + split; [discriminate | intros E; now elim E].
  - intros s c r E. unfold JsMap.has. rewrite leaveRoom_get_room, value_eqb_refl.
    unfold room_of in E. destruct (JsMap.get r (rooms s)) as [room|]; auto.
    now rewrite E.
Qed.

End Directory.

(** ** Room membership of one connection *)

Section Membership.
Variable Date_now : nat -> Z.

(** Among rooms whose identifier is truthy a connection is in at most one,
    the one its [roomId] names. *)
Lemma at_most_one_truthy_room : forall issued s c r1 r2,
    reachable Date_now issued s ->
    truthy r1 = true -> truthy r2 = true ->
    In c (room_of s r1) -> In c (room_of s r2) ->
    r1 = r2 /\
    exists client, JsMap.get c (clients s) = Some client /\ roomId client = r1.
Proof.
  intros issued s c r1 r2 R T1 T2 H1 H2.
  apply reachable_invariant in R. destruct R as [_ _ _ _ I5 _].
  destruct (I5 r1 c T1 H1) as (cl1 & G1 & E1).
  destruct (I5 r2 c T2 H2) as (cl2 & G2 & E2).
  rewrite G1 in G2. injection G2 as <-. split; [congruence | eauto].
Qed.

(** C2. A connection that registers, joins the room whose identifier is the
    empty string and then joins room "r1" is not taken out of the first
    room: it ends up in the member sets of both, while its [roomId] names
    only "r1". *)
Theorem join_from_empty_named_room_keeps_membership :
  let s :=
    run Date_now initial
      [Connection "C"; Frame "C" (register_as "alice");
       Frame "C" (join_room ""); Frame "C" (join_room "r1")] in
  rooms s = [(Str "", ["C"]); (Str "r1", ["C"])] /\
  In "C" (room_of s (Str "")) /\
  In "C" (room_of s (Str "r1")) /\
  option_map roomId (JsMap.get "C" (clients s)) = Some (Str "r1").
Proof.
  cbv. repeat split; auto.
Qed.

End Membership.

(** ** The router and the call relay *)

Section Router.
Variable Date_now : nat -> Z.

Lemma dispatch_webrtc : forall s c m t,
    Message.type m = Str t -> is_webrtc t ->
    dispatch Date_now s c m = inr (handleWebRTCSignaling Date_now s c m).
Proof.
  intros s c m t E [-> | [-> | ->]]; unfold dispatch; rewrite E; reflexivity.
Qed.

Lemma handleMessage_present : forall s c client m,
    JsMap.get c (clients s) = Some client ->
    handleMessage Date_now s c (PObj m) = dispatch Date_now s c m.
Proof. intros s c client m G. unfold handleMessage. now rewrite G. Qed.

(** C3. A sender with a truthy [userId] addresses a [targetUserId] that no
    client record carries.  Nothing is sent to any connection but the
    sender's and the state is left as it was; the sender gets the
    "Target user not found" error for call-user, and for the three webrtc
    types when its [roomId] is truthy; call-response and end-call, and the
    webrtc types from a sender in no room, send nothing at all. *)
Theorem unknown_target_reply : forall s c client m t,
    JsMap.get c (clients s) = Some client ->
    truthy (userId client) = true ->
    Message.type m = Str t ->
    findClientByUserId s (Message.targetUserId m) = None ->
    (t = "call-user" ->
     handleMessage Date_now s c (PObj m) = inr (s, target_not_found client)) /\
    (is_webrtc t ->
     handleMessage Date_now s c (PObj m) =
     inr (s, if truthy (roomId client) then target_not_found client else [])) /\
    (t = "call-response" \/ t = "end-call" ->
     handleMessage Date_now s c (PObj m) = inr (s, [])).
Proof.
  intros s c client m t G Hu Ht Hf.
  rewrite (handleMessage_present s c client m G).
  split; [|split].
  - intros ->. unfold dispatch. rewrite Ht. simpl.
    unfold handleCallUser. now rewrite G, Hu, Hf.
  - intros W. rewrite (dispatch_webrtc s c m t Ht W).
    unfold handleWebRTCSignaling. rewrite G, Hf.
    now destruct (truthy (roomId client)).
  - intros [-> | ->]; unfold dispatch; rewrite Ht; simpl.
    + unfold handleCallResponse. now rewrite G, Hu, Hf.
    + unfold handleEndCall. now rewrite G, Hu, Hf.
Qed.

(** C4. The [targetUserId] resolves to a client record.  From a sender with
    a truthy [userId], call-user, call-response and end-call reach the
    target as incoming-call, call-response and call-ended with [fromUserId]
    set, whatever rooms the two are in.  The three webrtc types are relayed,
    with [fromUserId] and [data], exactly when the sender's [roomId] is
    truthy; from a sender in no room nothing is sent.  The room of the
    target never matters. *)
Theorem relay_to_target : forall s c client target m t,
    JsMap.get c (clients s) = Some client ->
    Message.type m = Str t ->
    findClientByUserId s (Message.targetUserId m) = Some target ->
    let stamp := ("timestamp", JNum (Date_now (ticks s))) in
    let from := ("fromUserId", JVal (userId client)) in
    (truthy (userId client) = true ->
     (t = "call-user" ->
      handleMessage Date_now s c (PObj m) =
      inr (tick s,
           [ws_send (ws target)
              [("type", JVal (Str "incoming-call")); from;
               ("callType", JVal (Message.callType m)); stamp]])) /\
     (t = "call-response" ->
      handleMessage Date_now s c (PObj m) =
      inr (tick s,
           [ws_send (ws target)
              [("type", JVal (Str "call-response")); from;
               ("accepted", JVal (Message.accepted m)); stamp]])) /\
     (t = "end-call" ->
      handleMessage Date_now s c (PObj m) =
      inr (tick s,
           [ws_send (ws target)
              [("type", JVal (Str "call-ended")); from; stamp]]))) /\
    (is_webrtc t ->
     handleMessage Date_now s c (PObj m) =
     inr (if truthy (roomId client)
          then (tick s,
                [ws_send (ws target)
                   [("type", JVal (Str t)); from;
                    ("data", JVal (Message.data m)); stamp]])
          else (s, []))).
Proof.
  intros s c client target m t G Ht Hf stamp from.
  rewrite (handleMessage_present s c client m G).
  split; [intros Hu; split; [|split]|].
  - intros ->. unfold dispatch. rewrite Ht. simpl.
    unfold handleCallUser. now rewrite G, Hu, Hf.
  - intros ->. unfold dispatch. rewrite Ht. simpl.
    unfold handleCallResponse. now rewrite G, Hu, Hf.
  - intros ->. unfold dispatch. rewrite Ht. simpl.
    unfold handleEndCall. now rewrite G, Hu, Hf.
  - intros W. rewrite (dispatch_webrtc s c m t Ht W).
    unfold handleWebRTCSignaling. rewrite G, Hf, Ht.
    now destruct (truthy (roomId client)).
Qed.

(** C5. A frame that [JSON.parse] rejects is answered on the originating
    connection only, with the error envelope whose message is
    "Invalid message format"; the state is untouched and the handler
    returns normally. *)
Theorem unparsable_frame_reply : forall s c,
    on_message Date_now s c None =
    (s, [(c, [("type", JVal (Str "error"));
              ("error", JVal (Str "Invalid message format"))])]).
Proof. reflexivity. Qed.

(** C7. [join-room] from a connection whose [userId] is [null]: the only
    send is the error envelope to that connection, and the state (client
    records, rooms, every other connection) is the one before. *)
Theorem join_before_register : forall s c client m,
    JsMap.get c (clients s) = Some client ->
    userId client = Null ->
    Message.type m = Str "join-room" ->
    handleJoinRoom Date_now s c (Message.roomId m) =
      inr (s, [ws_send (ws client)
                 (error_envelope "Must register before joining room")]) /\
    on_message Date_now s c (Some (PObj m)) =
      (s, [(conn (ws client),
            [("type", JVal (Str "error"));
             ("error", JVal (Str "Must register before joining room"))])]).
Proof.
  intros s c client m G Hu Ht.
  assert (E : handleJoinRoom Date_now s c (Message.roomId m) =
              inr (s, [ws_send (ws client)
                         (error_envelope "Must register before joining room")])).
  { unfold handleJoinRoom. now rewrite G, Hu. }
  split; [exact E|].
  unfold on_message. rewrite (handleMessage_present s c client m G).
  unfold dispatch. rewrite Ht. simpl. now rewrite E.
Qed.

Lemma dispatch_no_client_error : forall s c client m,
    JsMap.get c (clients s) = Some client ->
    dispatch Date_now s c m <> inl TypeError_client.
Proof.
  intros s c client m G. unfold dispatch.
  destruct (Message.type m) as [| | |t]; try discriminate.
  repeat match goal with
         | |- context [if ?b then _ else _] => destruct b
         end; try discriminate.
  - unfold handleJoinRoom. rewrite G.
    destruct (negb (truthy (userId client))); [discriminate|].
    destruct (if truthy (roomId client)
              then leaveRoom Date_now s c (roomId client) else (s, [])).
    discriminate.
  - unfold handleChatMessage. rewrite G.
    destruct (negb (truthy (roomId client))); discriminate.
Qed.

(** C10. [handleMessage] returns at once, sending nothing, when the
    connection has no client record, for whatever was parsed; so it never
    ends in the [TypeError] of reading [client.ws] on a missing record,
    which is what [handleJoinRoom] and [handleChatMessage] do exactly when
    they are entered without one. *)
Theorem no_missing_client_dereference :
  (forall s c message,
      JsMap.get c (clients s) = None ->
      handleMessage Date_now s c message = inr (s, [])) /\
  (forall s c message,
      handleMessage Date_now s c message <> inl TypeError_client) /\
  (forall s c r,
      handleJoinRoom Date_now s c r = inl TypeError_client <->
      JsMap.get c (clients s) = None) /\
  (forall s c m,
      handleChatMessage Date_now s c m = inl TypeError_client <->
      JsMap.get c (clients s) = None).
Proof.
  split; [|split; [|split]].
  - intros s c message G. unfold handleMessage. now rewrite G.
  - intros s c message. unfold handleMessage.
    destruct (JsMap.get c (clients s)) as [client|] eqn:G; [|discriminate].
    destruct message as [|m]; [discriminate|].
    now apply dispatch_no_client_error with client.
  - intros s c r. unfold handleJoinRoom.
    destruct (JsMap.get c (clients s)) as [client|]; [|tauto].
    split; [|discriminate].
    destruct (negb (truthy (userId client))); [discriminate|].
    destruct (if truthy (roomId client)
              then leaveRoom Date_now s c (roomId client) else (s, [])).
    discriminate.
  - intros s c m. unfold handleChatMessage.
    destruct (JsMap.get c (clients s)) as [client|]; [|tauto].
    split; [|discriminate].
    destruct (negb (truthy (roomId client))); discriminate.
Qed.

End Router.

(** ** Presence and chat broadcast *)

Section Broadcast.
Variable Date_now : nat -> Z.

Lemma broadcast_members : forall s r message,
    ws_own s ->
    broadcastToRoom s r message None =
    map (fun cId => (cId, JSON_stringify message))
        (filter (transport_open s) (room_of s r)).
Proof.
  intros s r message W. unfold broadcastToRoom, room_of.
  destruct (JsMap.get r (rooms s)) as [room|]; [|reflexivity].
  induction room as [|x room IH]; [reflexivity|].
  cbn [flat_map filter]. rewrite IH. unfold transport_open at 2.
  destruct (JsMap.get x (clients s)) as [client|] eqn:G; [|reflexivity].
  destruct (Nat.eqb (readyState (ws client)) 1); [|reflexivity].
  simpl. now rewrite (W x client G).
Qed.

Lemma filter_all : forall (A : Type) (f : A -> bool) (l : list A),
    (forall x, In x l -> f x = true) -> filter f l = l.
Proof.
  intros A f l. induction l as [|x l IH]; intros Hall; [reflexivity|].
  simpl. rewrite (Hall x (or_introl eq_refl)). f_equal.
  apply IH. intros y Hy. apply Hall. now right.
Qed.

(** C8. A connection whose [roomId] is truthy sends a chat-message in a
    reachable state.  The room it names holds the sender and only live
    connections, each once; the envelope is serialized once and one copy of
    that same text goes to every member whose transport is OPEN, in member
    order and to nobody else; when all N members are OPEN that is exactly N
    copies. *)
Theorem chat_message_fanout : forall issued s c client m,
    reachable Date_now issued s ->
    JsMap.get c (clients s) = Some client ->
    truthy (roomId client) = true ->
    let room := room_of s (roomId client) in
    let text :=
      JSON_stringify
        [("type", JVal (Str "chat-message"));
         ("userId", JVal (userId client));
         ("message", JVal (Message.message m));
         ("encrypted", JVal (Message.encrypted m));
         ("timestamp", JNum (Date_now (ticks s)))] in
    In c room /\ NoDup room /\
    (forall x, In x room -> exists cx, JsMap.get x (clients s) = Some cx) /\
    handleChatMessage Date_now s c m =
      inr (tick s, map (fun x => (x, text)) (filter (transport_open s) room)) /\
    ((forall x, In x room -> transport_open s x = true) ->
     handleChatMessage Date_now s c m =
       inr (tick s, map (fun x => (x, text)) room) /\
     length (map (fun x => (x, text)) room) = length room).
Proof.
  intros issued s c client m R G T room text.
  apply reachable_invariant in R. destruct R as [_ I2 I3 I4 I5 _].
  assert (E : handleChatMessage Date_now s c m =
              inr (tick s, map (fun x => (x, text))
                             (filter (transport_open s) room))).
  { unfold handleChatMessage. rewrite G, T. cbv beta iota delta [negb].
    now rewrite (broadcast_members s (roomId client) _ I3). }
  split; [now apply I4|]. split; [apply I2|]. split.
  - intros x Hx. destruct (I5 (roomId client) x T Hx) as (cx & Gx & _). eauto.
  - split; [exact E|]. intros Hopen. rewrite E.
    rewrite (filter_all _ _ _ Hopen). split; [reflexivity | apply length_map].
Qed.

Ltac crunch :=
  unfold step, on_connection, on_message, handleMessage, dispatch,
    handleRegister, handleJoinRoom, enterRoom, usersInRoom, broadcastToRoom,
    room_of, register_as, join_room, ws_send, JsSet.add, JsSet.has;
  repeat progress
    (cbn;
     repeat match goal with
            | |- context [String.eqb ?x ?x] => rewrite (String.eqb_refl x)
            | H : String.eqb ?x ?y = false |- context [String.eqb ?x ?y] =>
                rewrite H
            end).

(** C6. A registers as "alice" and joins "r1"; B registers as "bob" and
    joins "r1".  Handling B's join sends B the joined-room envelope, whose
    [users] lists the members after the join, "alice" then "bob", and
    sends A the user-joined envelope for "bob"; nothing else is sent. *)
Theorem second_join_presence : forall a b,
    a <> b ->
    let s :=
      run Date_now initial
        [Connection a; Frame a (register_as "alice"); Frame a (join_room "r1");
         Connection b; Frame b (register_as "bob")] in
    snd (on_message Date_now s b (join_room "r1")) =
    [(b, [("type", JVal (Str "joined-room"));
          ("roomId", JVal (Str "r1"));
          ("users", JArr [Str "alice"; Str "bob"]);
          ("timestamp", JNum (Date_now 6))]);
     (a, [("type", JVal (Str "user-joined"));
          ("userId", JVal (Str "bob"));
          ("timestamp", JNum (Date_now 7))])].
Proof.
  intros a b Hab.
  assert (Eab : String.eqb a b = false) by now apply String.eqb_neq.
  assert (Eba : String.eqb b a = false)
    by (apply String.eqb_neq; congruence).
  pose (open x := {| conn := x; readyState := 1 |}).
  pose (ca := {| ws := open a; userId := Str "alice"; roomId := Str "r1" |}).
  pose (cb := {| ws := open b; userId := Str "bob"; roomId := Null |}).
  assert (E : run Date_now initial
                [Connection a; Frame a (register_as "alice");
                 Frame a (join_room "r1"); Connection b;
                 Frame b (register_as "bob")] =
              {| clients := [(a, ca); (b, cb)];
                 rooms := [(Str "r1", [a])];
                 ticks := 6 |}).
  { cbn [run].
    assert (E1 : fst (step Date_now initial (Connection a)) =
                 {| clients := [(a, {| ws := open a; userId := Null; roomId := Null |})];
                    rooms := []; ticks := 1 |}) by reflexivity.
    rewrite E1. clear E1.
    match goal with |- context [step Date_now ?s (Frame a (register_as "alice"))] =>
      assert (E2 : fst (step Date_now s (Frame a (register_as "alice"))) =
                   {| clients := [(a, {| ws := open a; userId := Str "alice"; roomId := Null |})];
                      rooms := []; ticks := 2 |})
        by (crunch; reflexivity);
      rewrite E2; clear E2
    end.
    match goal with |- context [step Date_now ?s (Frame a (join_room "r1"))] =>
      assert (E3 : fst (step Date_now s (Frame a (join_room "r1"))) =
                   {| clients := [(a, ca)]; rooms := [(Str "r1", [a])]; ticks := 4 |})
        by (crunch; reflexivity);
      rewrite E3; clear E3
    end.
    match goal with |- context [step Date_now ?s (Connection b)] =>
      assert (E4 : fst (step Date_now s (Connection b)) =
                   {| clients := [(a, ca); (b, {| ws := open b; userId := Null; roomId := Null |})];
                      rooms := [(Str "r1", [a])]; ticks := 5 |})
        by (crunch; reflexivity);
      rewrite E4; clear E4
    end.
    crunch. reflexivity. }
  cbv zeta. rewrite E. subst open ca cb. crunch. reflexivity.
Qed.

End Broadcast.

(** ** Round trip of the encryption wrapper *)

Lemma to_N_below_256 : forall b, (Byte.to_N b < 256)%N.
Proof. intro b. pose proof (Byte.to_N_bounded b). lia. Qed.

Lemma to_uint8_to_N : forall b, to_uint8 (Byte.to_N b) = b.
Proof.
  intro b. unfold to_uint8.
  rewrite N.mod_small by apply to_N_below_256.
  now rewrite Byte.of_to_N.
Qed.

Lemma binary_of_bytes : forall (buffer : list byte) (acc : jsstring),
    fold_left (fun binary b => binary ++ [Byte.to_N b]) buffer acc =
    acc ++ map Byte.to_N buffer.
Proof.
  induction buffer as [|b buffer IH]; intro acc; simpl.
  - now rewrite app_nil_r.
  - rewrite IH, <- app_assoc. reflexivity.
Qed.

Lemma bytes_of_binary : forall buffer : list byte,
    map to_uint8 (map Byte.to_N buffer) = buffer.
Proof.
  induction buffer as [|b buffer IH]; simpl; [reflexivity|].
  now rewrite to_uint8_to_N, IH.
Qed.

Lemma binary_is_latin1 : forall buffer : list byte,
    Forall (fun cu => (cu < 256)%N) (map Byte.to_N buffer).
Proof.
  induction buffer as [|b buffer IH]; simpl; constructor; auto.
  apply to_N_below_256.
Qed.

(** [data.slice(0, n)] and [data.slice(n)] of an [n]-byte IV followed by
    the ciphertext. *)
Lemma slice_iv : forall n (iv encryptedData : list byte),
    length iv = n -> firstn n (iv ++ encryptedData) = iv.
Proof.
  intros n iv encryptedData <-.
  now rewrite firstn_app, firstn_all, Nat.sub_diag, firstn_O, app_nil_r.
Qed.

Lemma slice_ciphertext : forall n (iv encryptedData : list byte),
    length iv = n -> skipn n (iv ++ encryptedData) = encryptedData.
Proof.
  intros n iv encryptedData <-.
  now rewrite skipn_app, skipn_all, Nat.sub_diag, skipn_O.
Qed.

Section RoundTrip.
Variable CryptoKey : Type.
Variable TextEncoder_encode : jsstring -> list byte.
Variable TextDecoder_decode : list byte -> jsstring.
Variable getRandomValues : nat -> list byte.
Variable subtle_encrypt : list byte -> CryptoKey -> list byte -> option (list byte).
Variable subtle_decrypt : list byte -> CryptoKey -> list byte -> option (list byte).
Variable btoa : jsstring -> option jsstring.
Variable atob : jsstring -> option jsstring.

(** What the platform promises. *)

(** [getRandomValues] fills the array it is given. *)
Hypothesis getRandomValues_length : forall n, length (getRandomValues n) = n.

(** AES-GCM decryption undoes encryption under the same key and IV. *)
Hypothesis subtle_decrypt_encrypt : forall iv key data encryptedData,
    subtle_encrypt iv key data = Some encryptedData ->
    subtle_decrypt iv key encryptedData = Some data.

(** [atob] undoes [btoa], which accepts any string of code units below 256. *)
Hypothesis atob_btoa : forall binary,
    Forall (fun cu => (cu < 256)%N) binary ->
    exists base64, btoa binary = Some base64 /\ atob base64 = Some binary.

(** What [decryptMessage] makes of the output of [encryptMessage], for any
    plaintext: the plaintext carried through the text encoder and back
    through the decoder. *)
Lemma decrypt_after_encrypt : forall (message : jsstring) (key : CryptoKey),
    (forall iv data, length iv = 12 -> subtle_encrypt iv key data <> None) ->
    exists encrypted,
      encryptMessage CryptoKey TextEncoder_encode getRandomValues subtle_encrypt btoa
        message key = Some encrypted /\
      decryptMessage CryptoKey TextDecoder_decode subtle_decrypt atob encrypted key =
        Some (TextDecoder_decode (TextEncoder_encode message)).
Proof.
  intros message key Henc.
  unfold encryptMessage, decryptMessage, arrayBufferToBase64, base64ToArrayBuffer.
  pose proof (getRandomValues_length 12) as Hiv.
  destruct (subtle_encrypt (getRandomValues 12) key (TextEncoder_encode message))
    as [encryptedData|] eqn:E.
  - rewrite binary_of_bytes, app_nil_l.
    destruct (atob_btoa _ (binary_is_latin1 (getRandomValues 12 ++ encryptedData)))
      as (base64 & Hb & Ha).
    exists base64. split; [exact Hb|].
    rewrite Ha, bytes_of_binary.
    rewrite (slice_iv 12 _ _ Hiv), (slice_ciphertext 12 _ _ Hiv).
    now rewrite (subtle_decrypt_encrypt _ _ _ _ E).
  - exfalso. now apply (Henc _ (TextEncoder_encode message) Hiv).
Qed.

End RoundTrip.

(** ** Round trip of the text codec *)

Ltac div_lia := zify; Z.to_euclidean_division_equations; lia.

Lemma to_N_to_uint8 : forall n, (n < 256)%N -> Byte.to_N (to_uint8 n) = n.
Proof.
  intros n H. unfold to_uint8. rewrite N.mod_small by exact H.
  destruct (Byte.of_N n) as [b|] eqn:E.
  - now apply Byte.to_of_N.
  - apply Byte.of_N_None_iff in E. lia.
Qed.


Lemma in_range_true : forall lo hi x,
    (lo <= x)%N -> (x <= hi)%N -> in_range lo hi x = true.
Proof.
  intros lo hi x H1 H2. unfold in_range.
  apply andb_true_intro. split; now apply N.leb_le.
Qed.

Lemma in_range_false : forall lo hi x,
    (x < lo)%N \/ (hi < x)%N -> in_range lo hi x = false.
Proof.
  intros lo hi x H. unfold in_range. apply andb_false_iff.
  destruct H; [left | right]; now apply N.leb_gt.
Qed.

Lemma utf8_lead_ascii : forall b,
    (b <= 0x7F)%N -> utf8_lead b = (utf8_start, [b]).
Proof.
  intros b H. unfold utf8_lead. apply N.leb_le in H. now rewrite H.
Qed.

Lemma utf8_lead_two : forall b,
    (0xC2 <= b)%N -> (b <= 0xDF)%N ->
    utf8_lead b =
    ({| code_point := b mod 32; bytes_seen := 0; bytes_needed := 1;
        lower_boundary := 0x80; upper_boundary := 0xBF |}, []).
Proof.
  intros b H1 H2. unfold utf8_lead.
  assert (E : N.leb b 0x7F = false) by (apply N.leb_gt; lia).
  now rewrite E, in_range_true.
Qed.

Lemma utf8_lead_three : forall b,
    (0xE0 <= b)%N -> (b <= 0xEF)%N ->
    utf8_lead b =
    ({| code_point := b mod 16; bytes_seen := 0; bytes_needed := 2;
        lower_boundary := if N.eqb b 0xE0 then 0xA0 else 0x80;
        upper_boundary := if N.eqb b 0xED then 0x9F else 0xBF |}, []).
Proof.
  intros b H1 H2. unfold utf8_lead.
  assert (E : N.leb b 0x7F = false) by (apply N.leb_gt; lia).
  rewrite E, (in_range_false 0xC2 0xDF) by lia.
  now rewrite in_range_true.
Qed.

Lemma utf8_lead_four : forall b,
    (0xF0 <= b)%N -> (b <= 0xF4)%N ->
    utf8_lead b =
    ({| code_point := b mod 8; bytes_seen := 0; bytes_needed := 3;
        lower_boundary := if N.eqb b 0xF0 then 0x90 else 0x80;
        upper_boundary := if N.eqb b 0xF4 then 0x8F else 0xBF |}, []).
Proof.
  intros b H1 H2. unfold utf8_lead.
  assert (E : N.leb b 0x7F = false) by (apply N.leb_gt; lia).
  rewrite E, (in_range_false 0xC2 0xDF), (in_range_false 0xE0 0xEF) by lia.
  now rewrite in_range_true.
Qed.

Lemma utf8_step_start : forall b, utf8_step utf8_start b = utf8_lead b.
Proof. reflexivity. Qed.

Lemma utf8_step_continue : forall cp seen needed lo hi b,
    needed <> 0%N -> (lo <= b)%N -> (b <= hi)%N ->
    utf8_step {| code_point := cp; bytes_seen := seen; bytes_needed := needed;
                 lower_boundary := lo; upper_boundary := hi |} b =
    if N.eqb (seen + 1) needed
    then (utf8_start, [(cp * 64 + b mod 64)%N])
    else ({| code_point := cp * 64 + b mod 64; bytes_seen := seen + 1;
             bytes_needed := needed;
             lower_boundary := 0x80; upper_boundary := 0xBF |}, []).
Proof.
  intros cp seen needed lo hi b Hn H1 H2. unfold utf8_step. cbn.
  apply N.eqb_neq in Hn. rewrite Hn, in_range_true by assumption.
  reflexivity.
Qed.

Lemma utf8_step_last : forall cp seen needed lo hi b,
    needed <> 0%N -> (lo <= b)%N -> (b <= hi)%N -> (seen + 1 = needed)%N ->
    utf8_step {| code_point := cp; bytes_seen := seen; bytes_needed := needed;
                 lower_boundary := lo; upper_boundary := hi |} b =
    (utf8_start, [(cp * 64 + b mod 64)%N]).
Proof.
  intros cp seen needed lo hi b Hn H1 H2 E.
  rewrite utf8_step_continue by assumption.
  apply N.eqb_eq in E. now rewrite E.
Qed.

Lemma utf8_step_more : forall cp seen needed lo hi b,
    needed <> 0%N -> (lo <= b)%N -> (b <= hi)%N -> (seen + 1 <> needed)%N ->
    utf8_step {| code_point := cp; bytes_seen := seen; bytes_needed := needed;
                 lower_boundary := lo; upper_boundary := hi |} b =
    ({| code_point := cp * 64 + b mod 64; bytes_seen := seen + 1;
        bytes_needed := needed;
        lower_boundary := 0x80; upper_boundary := 0xBF |}, []).
Proof.
  intros cp seen needed lo hi b Hn H1 H2 E.
  rewrite utf8_step_continue by assumption.
  apply N.eqb_neq in E. now rewrite E.
Qed.

Ltac next :=
  cbv beta iota zeta; cbn [app utf8_decode];
  try (rewrite to_N_to_uint8 by div_lia).

Lemma utf8_decode_bytes : forall cp rest,
    is_scalar cp ->
    utf8_decode utf8_start (utf8_bytes cp ++ rest) =
    cp :: utf8_decode utf8_start rest.
Proof.
  intros cp rest [Hmax Hsur]. unfold utf8_bytes.
  destruct (N.ltb_spec cp 0x80); [|destruct (N.ltb_spec cp 0x800);
    [|destruct (N.ltb_spec cp 0x10000)]];
    cbn [app utf8_decode];
    rewrite to_N_to_uint8 by div_lia; rewrite utf8_step_start.
  - now rewrite utf8_lead_ascii by lia.
  - rewrite utf8_lead_two by div_lia. next.
    rewrite utf8_step_last by div_lia. next.
    f_equal. div_lia.
  - rewrite utf8_lead_three by div_lia. next.
    rewrite utf8_step_more;
      [| discriminate
       | destruct (N.eqb_spec (0xE0 + cp / 4096) 0xE0); div_lia
       | destruct (N.eqb_spec (0xE0 + cp / 4096) 0xED); div_lia
       | discriminate ].
    next.
    rewrite utf8_step_last by div_lia. next.
    f_equal. div_lia.
  - rewrite utf8_lead_four by div_lia. next.
    rewrite utf8_step_more;
      [| discriminate
       | destruct (N.eqb_spec (0xF0 + cp / 262144) 0xF0); div_lia
       | destruct (N.eqb_spec (0xF0 + cp / 262144) 0xF4); div_lia
       | discriminate ].
    next.
    rewrite utf8_step_more by div_lia. next.
    rewrite utf8_step_last by div_lia. next.
    f_equal. div_lia.
Qed.

Lemma in_range_spec : forall lo hi x,
    in_range lo hi x = true <-> (lo <= x /\ x <= hi)%N.
Proof.
  intros lo hi x. unfold in_range.
  rewrite andb_true_iff, !N.leb_le. tauto.
Qed.

Lemma in_range_spec_false : forall lo hi x,
    in_range lo hi x = false <-> (x < lo \/ hi < x)%N.
Proof.
  intros lo hi x. unfold in_range.
  rewrite andb_false_iff, !N.leb_gt. tauto.
Qed.

Lemma utf8_decode_scalars : forall cps,
    Forall is_scalar cps ->
    utf8_decode utf8_start (flat_map utf8_bytes cps) = cps.
Proof.
  induction 1 as [|cp cps Hcp _ IH]; [reflexivity|].
  cbn [flat_map]. rewrite utf8_decode_bytes by exact Hcp. now rewrite IH.
Qed.

Lemma pair_is_scalar : forall hi lo,
    is_lead_surrogate hi = true -> is_trail_surrogate lo = true ->
    is_scalar (0x10000 + (hi - 0xD800) * 0x400 + (lo - 0xDC00)) /\
    code_units (0x10000 + (hi - 0xD800) * 0x400 + (lo - 0xDC00)) = [hi; lo].
Proof.
  intros hi lo Hh Hl. apply in_range_spec in Hh, Hl. split.
  - split; lia.
  - unfold code_units.
    destruct (N.ltb_spec (0x10000 + (hi - 0xD800) * 0x400 + (lo - 0xDC00)) 0x10000);
      [lia|].
    f_equal; [|f_equal]; div_lia.
Qed.

Lemma unit_is_scalar : forall u,
    is_lead_surrogate u = false -> is_trail_surrogate u = false ->
    N.ltb u 0x10000 = true ->
    is_scalar u /\ code_units u = [u].
Proof.
  intros u Hh Hl Hu.
  apply in_range_spec_false in Hh, Hl. apply N.ltb_lt in Hu. split.
  - split; lia.
  - unfold code_units. apply N.ltb_lt in Hu. now rewrite Hu.
Qed.

Lemma well_formed_scalars : forall n s,
    length s <= n ->
    well_formed s = true ->
    Forall is_scalar (scalar_values s) /\
    flat_map code_units (scalar_values s) = s.
Proof.
  induction n as [|n IH]; intros s Hlen Hwf.
  - destruct s; [split; [constructor | reflexivity] | simpl in Hlen; lia].
  - destruct s as [|u rest]; [split; [constructor | reflexivity]|].
    cbn [well_formed scalar_values] in *.
    destruct (is_lead_surrogate u) eqn:Hh.
    + destruct rest as [|lo rest']; [discriminate|].
      apply andb_true_iff in Hwf. destruct Hwf as [Hl Hwf]. rewrite Hl.
      destruct (pair_is_scalar u lo Hh Hl) as [Hs Hu].
      destruct (IH rest') as [Hf He]; [simpl in Hlen; lia | exact Hwf|].
      split; [now constructor|].
      cbn [flat_map]. rewrite Hu, He. reflexivity.
    + destruct (is_trail_surrogate u) eqn:Hl; [discriminate|].
      apply andb_true_iff in Hwf. destruct Hwf as [Hu Hwf].
      destruct (unit_is_scalar u Hh Hl Hu) as [Hs Hc].
      destruct (IH rest) as [Hf He]; [simpl in Hlen; lia | exact Hwf|].
      split; [now constructor|].
      cbn [flat_map]. rewrite Hc, He. reflexivity.
Qed.

(** The text codec loses nothing on a well-formed string that does not start
    with U+FEFF. *)
Lemma text_codec_round_trip : forall s,
    well_formed s = true -> starts_with_BOM s = false ->
    TextDecoder_utf8 (TextEncoder_utf8 s) = s.
Proof.
  intros s Hwf Hbom. unfold TextDecoder_utf8, TextEncoder_utf8.
  destruct (well_formed_scalars (length s) s (le_n _) Hwf) as [Hf He].
  rewrite utf8_decode_scalars by exact Hf. rewrite He.
  destruct s as [|u rest]; [reflexivity|]. simpl in *. now rewrite Hbom.
Qed.

Section RoundTripText.
Variable CryptoKey : Type.
Variable getRandomValues : nat -> list byte.
Variable subtle_encrypt : list byte -> CryptoKey -> list byte -> option (list byte).
Variable subtle_decrypt : list byte -> CryptoKey -> list byte -> option (list byte).
Variable btoa : jsstring -> option jsstring.
Variable atob : jsstring -> option jsstring.

Hypothesis getRandomValues_length : forall n, length (getRandomValues n) = n.

Hypothesis subtle_decrypt_encrypt : forall iv key data encryptedData,
    subtle_encrypt iv key data = Some encryptedData ->
    subtle_decrypt iv key encryptedData = Some data.

Hypothesis atob_btoa : forall binary,
    Forall (fun cu => (cu < 256)%N) binary ->
    exists base64, btoa binary = Some base64 /\ atob base64 = Some binary.

(** C9. For a key under which AES-GCM encrypts with a 12-byte IV, and a
    plaintext in which every surrogate is paired and which does not start
    with U+FEFF (of any length: ASCII, multi-byte, supplementary planes),
    [encryptMessage] yields a text that [decryptMessage], under the same
    key, turns back into exactly the plaintext. *)
Theorem decrypt_encrypt_round_trip : forall (message : jsstring) (key : CryptoKey),
    (forall iv data, length iv = 12 -> subtle_encrypt iv key data <> None) ->
    well_formed message = true ->
    starts_with_BOM message = false ->
    exists encrypted,
      encryptMessage CryptoKey TextEncoder_utf8 getRandomValues subtle_encrypt
        btoa message key = Some encrypted /\
      decryptMessage CryptoKey TextDecoder_utf8 subtle_decrypt atob encrypted
        key = Some message.
Proof.
  intros message key Henc Hwf Hbom.
  destruct (decrypt_after_encrypt CryptoKey TextEncoder_utf8 TextDecoder_utf8
              getRandomValues subtle_encrypt subtle_decrypt btoa atob
              getRandomValues_length subtle_decrypt_encrypt atob_btoa
              message key Henc) as (encrypted & He & Hd).
  exists encrypted. split; [exact He|].
  now rewrite Hd, text_codec_round_trip.
Qed.

(** Whatever the cipher and the key, a leading U+FEFF does not come back. *)
Lemma leading_BOM_is_dropped : forall key : CryptoKey,
    (forall iv data, length iv = 12 -> subtle_encrypt iv key data <> None) ->
    exists encrypted,
      encryptMessage CryptoKey TextEncoder_utf8 getRandomValues subtle_encrypt
        btoa [0xFEFF; 104; 105]%N key = Some encrypted /\
      decryptMessage CryptoKey TextDecoder_utf8 subtle_decrypt atob encrypted
        key = Some [104; 105]%N.
Proof.
  intros key Henc.
  exact (decrypt_after_encrypt CryptoKey TextEncoder_utf8 TextDecoder_utf8
           getRandomValues subtle_encrypt subtle_decrypt btoa atob
           getRandomValues_length subtle_decrypt_encrypt atob_btoa
           [0xFEFF; 104; 105]%N key Henc).
Qed.

End RoundTripText.

(** ** Witnesses and counterexamples *)

Lemma room_present_iff_has_member_witness :
  let s := run clock initial [Connection "A"; Frame "A" (register_as "alice");
                              Frame "A" (join_room "r1")] in
  (JsMap.has (Str "r1") (rooms s) = true <-> room_of s (Str "r1") <> []) /\
  JsSet.delete "A" (room_of s (Str "r1")) = [] /\
  JsMap.has (Str "r1") (rooms (fst (leaveRoom clock s "A" (Str "r1")))) = false.
Proof.
  split; [|split].
  - apply (proj1 (room_present_iff_has_member clock)
             [Connection "A"; Frame "A" (register_as "alice");
              Frame "A" (join_room "r1")] (Str "r1")).
  - reflexivity.
  - apply (proj2 (room_present_iff_has_member clock)). reflexivity.
Defined.

Lemma unknown_target_reply_witness :
  JsMap.get "A" (clients alice_alone) = Some alice_record /\
  truthy (userId alice_record) = true /\
  findClientByUserId alice_alone (Str "bob") = None /\
  handleMessage clock alice_alone "A" (PObj (call "call-user" "bob")) =
    inr (alice_alone, target_not_found alice_record).
Proof.
  split; [reflexivity|]. split; [reflexivity|]. split; [reflexivity|].
  apply (proj1 (unknown_target_reply clock alice_alone "A" alice_record
                  (call "call-user" "bob") "call-user"
                  eq_refl eq_refl eq_refl eq_refl)).
  reflexivity.
Defined.

(** C3, as stated, fails: the registered sender "alice" ends a call with
    "bob", whom no connection is registered as, and is sent nothing. *)
Lemma unknown_target_end_call_silent :
  JsMap.get "A" (clients alice_alone) = Some alice_record /\
  findClientByUserId alice_alone (Str "bob") = None /\
  snd (on_message clock alice_alone "A" (Some (PObj (call "end-call" "bob")))) = [] /\
  ~ In ("A", JSON_stringify (error_envelope "Target user not found"))
       (snd (on_message clock alice_alone "A"
               (Some (PObj (call "end-call" "bob"))))).
Proof.
  split; [reflexivity|]. split; [reflexivity|]. split; [reflexivity|].
  intros [].
Qed.

Lemma relay_to_target_witness :
  JsMap.get "A" (clients alice_bob_no_room) = Some alice_record /\
  findClientByUserId alice_bob_no_room (Str "bob") = Some bob_record /\
  truthy (userId alice_record) = true /\
  handleMessage clock alice_bob_no_room "A" (PObj (call "call-user" "bob")) =
    inr (tick alice_bob_no_room,
         [("B", [("type", JVal (Str "incoming-call"));
                 ("fromUserId", JVal (Str "alice"));
                 ("callType", JVal (Str "voice"));
                 ("timestamp", JNum 4)])]).
Proof.
  split; [reflexivity|]. split; [reflexivity|]. split; [reflexivity|].
  apply (proj1 (proj1 (relay_to_target clock alice_bob_no_room "A" alice_record
                         bob_record (call "call-user" "bob") "call-user"
                         eq_refl eq_refl eq_refl) eq_refl)).
  reflexivity.
Defined.

(** C4, as stated, fails: "alice" and "bob" are registered and in no room;
    the webrtc-offer "alice" addresses to "bob" resolves to his connection
    and is not delivered. *)
Lemma webrtc_offer_outside_room_dropped :
  JsMap.get "A" (clients alice_bob_no_room) = Some alice_record /\
  findClientByUserId alice_bob_no_room (Str "bob") = Some bob_record /\
  snd (on_message clock alice_bob_no_room "A"
         (Some (PObj (call "webrtc-offer" "bob")))) = [].
Proof. repeat split. Qed.

(** C5, as stated, fails: the reply to a frame that does not parse carries
    "Invalid message format", not "Malformed envelope". *)
Lemma unparsable_frame_not_malformed_envelope :
  snd (on_message clock (run clock initial [Connection "A"]) "A" None) =
    [("A", JSON_stringify (error_envelope "Invalid message format"))] /\
  ~ In ("A", JSON_stringify (error_envelope "Malformed envelope"))
       (snd (on_message clock (run clock initial [Connection "A"]) "A" None)).
Proof.
  split; [reflexivity|]. intros [H|[]]. discriminate H.
Qed.

Lemma second_join_presence_witness :
  "A" <> "B" /\
  snd (on_message clock
         (run clock initial
            [Connection "A"; Frame "A" (register_as "alice");
             Frame "A" (join_room "r1");
             Connection "B"; Frame "B" (register_as "bob")])
         "B" (join_room "r1")) =
  [("B", [("type", JVal (Str "joined-room"));
          ("roomId", JVal (Str "r1"));
          ("users", JArr [Str "alice"; Str "bob"]);
          ("timestamp", JNum 6)]);
   ("A", [("type", JVal (Str "user-joined"));
          ("userId", JVal (Str "bob"));
          ("timestamp", JNum 7)])].
Proof.
  assert (H : "A" <> "B") by discriminate.
  split; [exact H|]. apply (second_join_presence clock "A" "B" H).
Defined.

(** C6, as stated, fails: the [users] of the joined-room envelope sent to B
    is "alice" followed by "bob", so no joined-room envelope listing only
    "alice" is sent. *)
Lemma second_join_users_include_joiner :
  let out :=
    snd (on_message clock
           (run clock initial
              [Connection "A"; Frame "A" (register_as "alice");
               Frame "A" (join_room "r1");
               Connection "B"; Frame "B" (register_as "bob")])
           "B" (join_room "r1")) in
  (exists stamp,
      In ("B", [("type", JVal (Str "joined-room")); ("roomId", JVal (Str "r1"));
                ("users", JArr [Str "alice"; Str "bob"]); stamp]) out) /\
  (forall stamp,
      ~ In ("B", [("type", JVal (Str "joined-room")); ("roomId", JVal (Str "r1"));
                  ("users", JArr [Str "alice"]); stamp]) out).
Proof.
  split.
  - exists ("timestamp", JNum 6). left. reflexivity.
  - intros stamp [H|[H|[]]]; discriminate H.
Qed.

Lemma join_before_register_witness :
  let s := run clock initial [Connection "A"] in
  let client := {| ws := {| conn := "A"; readyState := 1 |};
                   userId := Null; roomId := Null |} in
  JsMap.get "A" (clients s) = Some client /\
  userId client = Null /\
  on_message clock s "A" (join_room "r1") =
    (s, [("A", [("type", JVal (Str "error"));
                ("error", JVal (Str "Must register before joining room"))])]).
Proof.
  split; [reflexivity|]. split; [reflexivity|].
  apply (proj2 (join_before_register clock
                  (run clock initial [Connection "A"]) "A"
                  {| ws := {| conn := "A"; readyState := 1 |};
                     userId := Null; roomId := Null |}
                  (Message.mk (Str "join-room") Undefined (Str "r1") Undefined
                     Undefined Undefined Undefined Undefined Undefined)
                  eq_refl eq_refl eq_refl)).
Defined.

Lemma alice_bob_in_r1_reachable :
  reachable clock ["B"; "A"] (run clock initial alice_bob_in_r1).
Proof.
  assert (HA : ~ In "A" []) by (intros []).
  assert (HB : ~ In "B" ["A"]) by (intros [H|[]]; discriminate H).
  exact (reachable_message clock _ _ "B" (join_room "r1")
           (reachable_message clock _ _ "B" (register_as "bob")
              (reachable_connection clock _ _ "B"
                 (reachable_message clock _ _ "A" (join_room "r1")
                    (reachable_message clock _ _ "A" (register_as "alice")
                       (reachable_connection clock _ _ "A"
                          (reachable_initial clock) HA)))
                 HB))).
Defined.

Lemma chat_message_fanout_witness :
  let s := run clock initial alice_bob_in_r1 in
  let client := {| ws := {| conn := "A"; readyState := 1 |};
                   userId := Str "alice"; roomId := Str "r1" |} in
  let m := Message.mk (Str "chat-message") Undefined Undefined (Str "hi")
             (Bool false) Undefined Undefined Undefined Undefined in
  let text := [("type", JVal (Str "chat-message"));
               ("userId", JVal (Str "alice"));
               ("message", JVal (Str "hi"));
               ("encrypted", JVal (Bool false));
               ("timestamp", JNum 8)] in
  JsMap.get "A" (clients s) = Some client /\
  truthy (roomId client) = true /\
  room_of s (Str "r1") = ["A"; "B"] /\
  handleChatMessage clock s "A" m = inr (tick s, [("A", text); ("B", text)]).
Proof.
  split; [reflexivity|]. split; [reflexivity|]. split; [reflexivity|].
  apply (proj2 (proj2 (proj2 (proj2
           (chat_message_fanout clock ["B"; "A"]
              (run clock initial alice_bob_in_r1) "A"
              {| ws := {| conn := "A"; readyState := 1 |};
                 userId := Str "alice"; roomId := Str "r1" |}
              (Message.mk (Str "chat-message") Undefined Undefined (Str "hi")
                 (Bool false) Undefined Undefined Undefined Undefined)
              alice_bob_in_r1_reachable eq_refl eq_refl))))).
  intros x [<-|[<-|[]]]; reflexivity.
Defined.

(** C8, as stated, fails: "A" and "B" are the two members of "r1" and the
    transport of "B" has left OPEN; the chat-message of "A" is delivered
    once, to "A" alone. *)
Lemma chat_message_skips_closing_member :
  let s := run clock initial (alice_bob_in_r1 ++ [Closing "B"]) in
  room_of s (Str "r1") = ["A"; "B"] /\
  map fst (snd (on_message clock s "A" (chat_message "hi"))) = ["A"] /\
  length (snd (on_message clock s "A" (chat_message "hi"))) <> 2.
Proof.
  split; [reflexivity|]. split; [reflexivity|]. discriminate.
Qed.

(** A toy platform for the wrappers: the random source gives zero bytes, the
    cipher and the base64 functions are the identity. *)
Definition toy_random (n : nat) : list byte := repeat x00 n.

Definition toy_cipher (iv : list byte) (key : unit) (data : list byte)
    : option (list byte) := Some data.

Definition toy_text (text : jsstring) : option jsstring := Some text.

Lemma toy_cipher_round_trip : forall iv key data encryptedData,
    toy_cipher iv key data = Some encryptedData ->
    toy_cipher iv key encryptedData = Some data.
Proof. intros iv key data encryptedData E. injection E as <-. reflexivity. Defined.

Lemma toy_text_round_trip : forall binary : jsstring,
    Forall (fun cu => (cu < 256)%N) binary ->
    exists text, toy_text binary = Some text /\ toy_text text = Some binary.
Proof. intros binary _. exists binary. split; reflexivity. Defined.

Lemma toy_cipher_encrypts : forall iv data,
    length iv = 12 -> toy_cipher iv tt data <> None.
Proof. intros iv data _. discriminate. Defined.

Lemma decrypt_encrypt_round_trip_witness :
  (* "Hi", U+4E16, U+1F680 *)
  let message := [72; 105; 0x4E16; 0xD83D; 0xDE80]%N in
  (forall n, length (toy_random n) = n) /\
  (forall iv data, length iv = 12 -> toy_cipher iv tt data <> None) /\
  well_formed message = true /\
  starts_with_BOM message = false /\
  exists encrypted,
    encryptMessage unit TextEncoder_utf8 toy_random toy_cipher toy_text
      message tt = Some encrypted /\
    decryptMessage unit TextDecoder_utf8 toy_cipher toy_text encrypted tt =
      Some message.
Proof.
  intros message.
  assert (H1 : forall n, length (toy_random n) = n)
    by (intro n; apply repeat_length).
  split; [exact H1|]. split; [exact toy_cipher_encrypts|].
  split; [reflexivity|]. split; [reflexivity|].
  exact (decrypt_encrypt_round_trip unit toy_random toy_cipher toy_cipher
           toy_text toy_text H1 toy_cipher_round_trip toy_text_round_trip
           message tt toy_cipher_encrypts eq_refl eq_refl).
Defined.

(** C9, as stated, fails: a plaintext that starts with U+FEFF comes back
    without it, and an unpaired surrogate comes back as U+FFFD. *)
Lemma round_trip_alters_some_plaintexts :
  (exists encrypted,
      encryptMessage unit TextEncoder_utf8 toy_random toy_cipher toy_text
        [0xFEFF; 104; 105]%N tt = Some encrypted /\
      decryptMessage unit TextDecoder_utf8 toy_cipher toy_text encrypted tt =
        Some [104; 105]%N /\
      [104; 105]%N <> [0xFEFF; 104; 105]%N) /\
  (exists encrypted,
      encryptMessage unit TextEncoder_utf8 toy_random toy_cipher toy_text
        [0xD800]%N tt = Some encrypted /\
      decryptMessage unit TextDecoder_utf8 toy_cipher toy_text encrypted tt =
        Some [0xFFFD]%N /\
      [0xFFFD]%N <> [0xD800]%N).
Proof.
  split; eexists; (split; [reflexivity|]); (split; [reflexivity | discriminate]).
Qed.

Lemma no_missing_client_dereference_witness :
  JsMap.get "ghost" (clients alice_alone) = None /\
  handleMessage clock alice_alone "ghost" (PObj (call "call-user" "alice")) =
    inr (alice_alone, []) /\
  handleJoinRoom clock alice_alone "ghost" (Str "r1") = inl TypeError_client.
Proof.
  split; [reflexivity|]. split.
  - apply (proj1 (no_missing_client_dereference clock)). reflexivity.
  - apply (proj1 (proj2 (proj2 (no_missing_client_dereference clock)))).
    reflexivity.
Defined.

(** ** Further properties of the encryption module *)

Section Base64.
Variable btoa : jsstring -> option jsstring.
Variable atob : jsstring -> option jsstring.

Hypothesis atob_btoa : forall binary,
    Forall (fun cu => (cu < 256)%N) binary ->
    exists base64, btoa binary = Some base64 /\ atob base64 = Some binary.

(** X1. [base64ToArrayBuffer] undoes [arrayBufferToBase64] on every byte
    array, the empty one included: the byte-to-character loop of the one and
    the character-to-byte loop of the other lose nothing. *)
Theorem base64_helpers_round_trip : forall buffer : list byte,
    exists base64,
      arrayBufferToBase64 btoa buffer = Some base64 /\
      base64ToArrayBuffer atob base64 = Some buffer.
Proof.
  intro buffer. unfold arrayBufferToBase64, base64ToArrayBuffer.
  rewrite binary_of_bytes, app_nil_l.
  destruct (atob_btoa _ (binary_is_latin1 buffer)) as (base64 & Hb & Ha).
  exists base64. split; [exact Hb|]. now rewrite Ha, bytes_of_binary.
Qed.

Section Format.
Variable CryptoKey : Type.
Variable TextEncoder_encode : jsstring -> list byte.
Variable getRandomValues : nat -> list byte.
Variable subtle_encrypt : list byte -> CryptoKey -> list byte -> option (list byte).

Hypothesis getRandomValues_length : forall n, length (getRandomValues n) = n.

(** X2. What [encryptMessage] returns is the base64 text of the IV followed
    by the ciphertext: decoded with [base64ToArrayBuffer] it is 12 bytes
    longer than the ciphertext, its first 12 bytes are the IV that was drawn
    and the rest is what AES-GCM produced under that IV.  When AES-GCM
    rejects, so does [encryptMessage]. *)
Theorem encryptMessage_format : forall message key,
    match subtle_encrypt (getRandomValues 12) key (TextEncoder_encode message) with
    | Some encryptedData =>
        exists encrypted data,
          encryptMessage CryptoKey TextEncoder_encode getRandomValues
            subtle_encrypt btoa message key = Some encrypted /\
          base64ToArrayBuffer atob encrypted = Some data /\
          length data = 12 + length encryptedData /\
          firstn 12 data = getRandomValues 12 /\
          skipn 12 data = encryptedData
    | None =>
        encryptMessage CryptoKey TextEncoder_encode getRandomValues
          subtle_encrypt btoa message key = None
    end.
Proof.
  intros message key. unfold encryptMessage.
  pose proof (getRandomValues_length 12) as Hiv.
  destruct (subtle_encrypt (getRandomValues 12) key (TextEncoder_encode message))
    as [encryptedData|]; [|reflexivity].
  destruct (base64_helpers_round_trip (getRandomValues 12 ++ encryptedData))
    as (encrypted & He & Hd).
  exists encrypted, (getRandomValues 12 ++ encryptedData).
  split; [exact He|]. split; [exact Hd|]. split.
  - now rewrite length_app, Hiv.
  - split; [now apply slice_iv | now apply slice_ciphertext].
Qed.

End Format.

Section KeyRoundTrip.
Variable CryptoKey PublicKey PrivateKey : Type.
Variable exportKey_raw : CryptoKey -> option (list byte).
Variable importKey_raw : list byte -> option CryptoKey.
Variable exportKey_spki : PublicKey -> option (list byte).
Variable importKey_spki : list byte -> option PublicKey.
Variable rsa_oaep_encrypt : PublicKey -> list byte -> option (list byte).
Variable rsa_oaep_decrypt : PrivateKey -> list byte -> option (list byte).

(** Importing the bytes a key was exported to gives the key back. *)
Hypothesis import_export_raw : forall key raw,
    exportKey_raw key = Some raw -> importKey_raw raw = Some key.
Hypothesis import_export_spki : forall key spki,
    exportKey_spki key = Some spki -> importKey_spki spki = Some key.

(** X3. A key that the platform can export survives the trip through its
    transferable text: [importSymmetricKey] gives back the key that
    [exportSymmetricKey] was given, and [importPublicKey] the one
    [exportPublicKey] was given. *)
Theorem exported_key_imports_back :
  (forall key : CryptoKey,
      exportKey_raw key <> None ->
      exists keyData,
        exportSymmetricKey CryptoKey exportKey_raw btoa key = Some keyData /\
        importSymmetricKey CryptoKey importKey_raw atob keyData = Some key) /\
  (forall publicKey : PublicKey,
      exportKey_spki publicKey <> None ->
      exists keyData,
        exportPublicKey PublicKey exportKey_spki btoa publicKey = Some keyData /\
        importPublicKey PublicKey importKey_spki atob keyData = Some publicKey).
Proof.
  split.
  - intros key Hx. unfold exportSymmetricKey, importSymmetricKey.
    destruct (exportKey_raw key) as [raw|] eqn:E; [|now elim Hx].
    destruct (base64_helpers_round_trip raw) as (keyData & He & Hd).
    exists keyData. split; [exact He|]. rewrite Hd. now apply import_export_raw.
  - intros key Hx. unfold exportPublicKey, importPublicKey.
    destruct (exportKey_spki key) as [spki|] eqn:E; [|now elim Hx].
    destruct (base64_helpers_round_trip spki) as (keyData & He & Hd).
    exists keyData. split; [exact He|]. rewrite Hd. now apply import_export_spki.
Qed.

(** X4. Key exchange: for a key pair under which RSA-OAEP decryption undoes
    encryption, and a symmetric key that the platform exports to bytes which
    RSA-OAEP under the public key accepts (it accepts only short inputs; the
    raw bytes of an AES key are), [decryptKey] with the private key gives
    back the symmetric key that [encryptKey] wrapped with the public key. *)
Theorem decryptKey_encryptKey_round_trip :
  forall (symmetricKey : CryptoKey) (publicKey : PublicKey)
         (privateKey : PrivateKey) (keyData : list byte),
    (forall data encryptedData,
        rsa_oaep_encrypt publicKey data = Some encryptedData ->
        rsa_oaep_decrypt privateKey encryptedData = Some data) ->
    exportKey_raw symmetricKey = Some keyData ->
    rsa_oaep_encrypt publicKey keyData <> None ->
    exists encryptedKey,
      encryptKey CryptoKey PublicKey exportKey_raw rsa_oaep_encrypt btoa
        symmetricKey publicKey = Some encryptedKey /\
      decryptKey CryptoKey PrivateKey importKey_raw rsa_oaep_decrypt atob
        encryptedKey privateKey = Some symmetricKey.
Proof.
  intros symmetricKey publicKey privateKey keyData Hpair E Henc.
  unfold encryptKey, decryptKey. rewrite E.
  destruct (rsa_oaep_encrypt publicKey keyData) as [wrapped|] eqn:W;
    [|now elim Henc].
  destruct (base64_helpers_round_trip wrapped) as (encryptedKey & He & Hd).
  exists encryptedKey. split; [exact He|].
  rewrite Hd, (Hpair _ _ W). now apply import_export_raw.
Qed.

End KeyRoundTrip.
End Base64.

(** ** Further properties of the relay server *)

(** The envelope types [handleMessage] dispatches on. *)
Definition known_types : list string :=
  ["register"; "join-room"; "leave-room"; "chat-message";
   "webrtc-offer"; "webrtc-answer"; "webrtc-ice-candidate";
   "call-user"; "call-response"; "end-call"].

Definition signaling_types : list string :=
  ["webrtc-offer"; "webrtc-answer"; "webrtc-ice-candidate";
   "call-user"; "call-response"; "end-call"].

Section Relay.
Variable Date_now : nat -> Z.

(** X5. [findClientByUserId] finds nothing exactly when no client record
    carries the [userId]; what it finds is the first record, in connection
    order, that carries it, so of several connections registered under one
    name the earliest connected is the one addressed. *)
Theorem findClientByUserId_first_match : forall s u,
    (findClientByUserId s u = None <->
     forall c client, In (c, client) (clients s) -> userId client <> u) /\
    (forall target,
        findClientByUserId s u = Some target ->
        exists before c after,
          clients s = before ++ (c, target) :: after /\
          userId target = u /\
          forall c' client', In (c', client') before -> userId client' <> u).
Proof.
  intros s u. unfold findClientByUserId.
  induction (clients s) as [|[c0 client0] cs [IHn IHs]]; simpl.
  - split; [split; [intros _ c client [] | reflexivity] | discriminate].
  - destruct (value_eqb (userId client0) u) eqn:E.
    + apply value_eqb_eq in E. split.
      * split; [discriminate|]. intros H. elim (H c0 client0); auto.
      * intros target T. injection T as <-.
        exists [], c0, cs. split; [reflexivity|]. split; [exact E|].
        intros c' client' [].
    + assert (Hne : userId client0 <> u)
        by (apply (key_eqb_false (K:=value)); exact E).
      split.
      * rewrite IHn. split.
        -- intros H c client [Hin|Hin]; [|now apply (H c client)].
           injection Hin as <- <-. exact Hne.
        -- intros H c client Hin. apply (H c client). now right.
      * intros target T.
        destruct (IHs target T) as (before & c & after & Hcs & Hu & Hb).
        exists ((c0, client0) :: before), c, after.
        split; [now rewrite Hcs|]. split; [exact Hu|].
        intros c' client' [Hin|Hin]; [|now apply (Hb c' client')].
        injection Hin as <- <-. exact Hne.
Qed.

Lemma broadcast_excluding : forall s r message c,
    ws_own s ->
    broadcastToRoom s r message (Some c) =
    map (fun x => (x, JSON_stringify message))
        (filter (fun x => negb (String.eqb x c) && transport_open s x)
                (room_of s r)).
Proof.
  intros s r message c W. unfold broadcastToRoom, room_of.
  destruct (JsMap.get r (rooms s)) as [room|]; [|reflexivity].
  induction room as [|x room IH]; [reflexivity|].
  cbn [flat_map filter]. rewrite IH.
  destruct (String.eqb x c); [reflexivity|]. cbn [negb andb].
  unfold transport_open at 2.
  destruct (JsMap.get x (clients s)) as [client|] eqn:G; [|reflexivity].
  destruct (Nat.eqb (readyState (ws client)) 1); [|reflexivity].
  simpl. now rewrite (W x client G).
Qed.

Lemma leaveRoom_sends : forall s c r,
    snd (leaveRoom Date_now s c r) =
    match JsMap.get r (rooms s), JsMap.get c (clients s) with
    | Some room, Some client =>
        if truthy (userId client)
        then broadcastToRoom
               (with_rooms s (JsMap.set r (JsSet.delete c room) (rooms s))) r
               [("type", JVal (Str "user-left"));
                ("userId", JVal (userId client));
                ("timestamp", JNum (Date_now (ticks s)))]
               None
        else []
    | _, _ => []
    end.
Proof.
  intros s c r. unfold leaveRoom.
  destruct (JsMap.get r (rooms s)) as [room|];
    destruct (JsMap.get c (clients s)) as [client|]; simpl; auto;
    try destruct (truthy (userId client));
    destruct (Nat.eqb (JsSet.size (JsSet.delete c room)) 0); reflexivity.
Qed.

Lemma room_of_get : forall s r x,
    In x (room_of s r) ->
    exists room, JsMap.get r (rooms s) = Some room /\ room_of s r = room.
Proof.
  intros s r x. unfold room_of.
  destruct (JsMap.get r (rooms s)) as [room|]; [eauto | intros []].
Qed.

(** X6. Leaving a room.  A connection whose [roomId] is truthy sends
    leave-room in a reachable state: it is taken out of that room's member
    set and of no other, its [roomId] becomes [null], no other client record
    changes, and one user-left envelope naming its [userId] goes to every
    remaining member whose transport is OPEN, and to nobody else (to nobody
    at all when its [userId] is falsy). *)
Theorem leave_room_notifies_remaining : forall issued s c client,
    reachable Date_now issued s ->
    JsMap.get c (clients s) = Some client ->
    truthy (roomId client) = true ->
    let r := roomId client in
    let remaining := JsSet.delete c (room_of s r) in
    let text :=
      JSON_stringify
        [("type", JVal (Str "user-left"));
         ("userId", JVal (userId client));
         ("timestamp", JNum (Date_now (ticks s)))] in
    let s' := fst (handleLeaveRoom Date_now s c) in
    snd (handleLeaveRoom Date_now s c) =
      (if truthy (userId client)
       then map (fun x => (x, text)) (filter (transport_open s) remaining)
       else []) /\
    (forall r', room_of s' r' =
                if value_eqb r r' then remaining else room_of s r') /\
    ~ In c (room_of s' r) /\
    (forall c', JsMap.get c' (clients s') =
                if String.eqb c c' then Some (set_roomId client Null)
                else JsMap.get c' (clients s)).
Proof.
  intros issued s c client R G T r remaining text s'.
  apply reachable_invariant in R. destruct R as [_ _ I3 I4 _ _].
  assert (Hl : handleLeaveRoom Date_now s c = leaveRoom Date_now s c r)
    by (unfold handleLeaveRoom; now rewrite G, T).
  unfold s'. rewrite Hl. split; [|split; [|split]].
  - rewrite leaveRoom_sends, G.
    destruct (room_of_get s r c (I4 c client G T)) as (room & Gr & Er).
    rewrite Gr. destruct (truthy (userId client)); [|reflexivity].
    rewrite broadcast_members by exact I3.
    unfold remaining. rewrite Er. unfold room_of at 1. simpl.
    now rewrite get_set_same.
  - intros r'. rewrite leaveRoom_room_of.
    destruct (value_eqb r r') eqn:E; [|reflexivity].
    apply value_eqb_eq in E. now subst r'.
  - rewrite leaveRoom_room_of, value_eqb_refl. intros Hin.
    apply in_set_delete in Hin. now destruct Hin.
  - intros c'. rewrite leaveRoom_get_client.
    destruct (String.eqb c c') eqn:E; [|reflexivity].
    apply String.eqb_eq in E. subst c'. now rewrite G.
Qed.

(** X7. A second leave-room does nothing: whatever the state, handling
    leave-room for a connection that has just been through [handleLeaveRoom]
    sends nothing and leaves the state as it is. *)
Theorem leave_room_twice : forall s c,
    handleLeaveRoom Date_now (fst (handleLeaveRoom Date_now s c)) c =
    (fst (handleLeaveRoom Date_now s c), []).
Proof.
  intros s c. unfold handleLeaveRoom at 2 3.
  destruct (JsMap.get c (clients s)) as [client|] eqn:G.
  - destruct (truthy (roomId client)) eqn:T.
    + unfold handleLeaveRoom.
      rewrite leaveRoom_get_client, String.eqb_refl, G. reflexivity.
    + simpl. unfold handleLeaveRoom. now rewrite G, T.
  - simpl. unfold handleLeaveRoom. now rewrite G.
Qed.

Lemma on_close_handleLeaveRoom : forall s c,
    on_close Date_now s c =
    (with_clients (fst (handleLeaveRoom Date_now s c))
       (JsMap.delete c (clients (fst (handleLeaveRoom Date_now s c)))),
     snd (handleLeaveRoom Date_now s c)).
Proof.
  intros s c. unfold on_close, handleLeaveRoom.
  destruct (JsMap.get c (clients s)) as [client|]; [|reflexivity].
  destruct (truthy (roomId client)); [|reflexivity].
  now destruct (leaveRoom Date_now s c (roomId client)).
Qed.

(** X8. Disconnecting.  When a transport closes in a reachable state the
    connection's record is removed and no other record is touched, the
    notifications are those an explicit leave-room would have sent, and the
    connection is left in no room with a truthy identifier.  A frame still
    arriving under its identifier changes nothing: one that parses is
    dropped without a send, one that does not parse is still answered with
    "Invalid message format" on that transport. *)
Theorem disconnect_cleans_up : forall issued s c,
    reachable Date_now issued s ->
    let s' := fst (on_close Date_now s c) in
    JsMap.get c (clients s') = None /\
    (forall c', c' <> c ->
                JsMap.get c' (clients s') = JsMap.get c' (clients s)) /\
    snd (on_close Date_now s c) = snd (handleLeaveRoom Date_now s c) /\
    (forall r, truthy r = true -> ~ In c (room_of s' r)) /\
    (forall frame,
        on_message Date_now s' c frame =
        (s', match frame with
             | Some _ => []
             | None =>
                 [(c, JSON_stringify (error_envelope "Invalid message format"))]
             end)).
Proof.
  intros issued s c R s'.
  assert (G' : JsMap.get c (clients s') = None).
  { unfold s'. rewrite on_close_handleLeaveRoom. simpl. apply get_delete_same. }
  split; [exact G'|]. split; [|split; [|split]].
  - intros c' Hne. unfold s'. rewrite on_close_handleLeaveRoom. simpl.
    rewrite get_delete_other by congruence.
    unfold handleLeaveRoom.
    destruct (JsMap.get c (clients s)) as [client|] eqn:G; [|reflexivity].
    destruct (truthy (roomId client)); [|reflexivity].
    rewrite leaveRoom_get_client.
    destruct (String.eqb c c') eqn:E; [|reflexivity].
    apply String.eqb_eq in E. congruence.
  - now rewrite on_close_handleLeaveRoom.
  - intros r T Hin.
    pose proof (reachable_invariant Date_now issued s'
                  (reachable_close Date_now issued s c R)) as [_ _ _ _ I5 _].
    destruct (I5 r c T Hin) as (client & Gc & _). congruence.
  - intros [message|]; [|reflexivity].
    unfold on_message, handleMessage. now rewrite G'.
Qed.

Lemma enterRoom_ticks : forall s1 c client r,
    ticks (enterRoom s1 c client r) = ticks s1.
Proof.
  intros. unfold enterRoom. simpl. now destruct (JsMap.has r (rooms s1)).
Qed.

Lemma handleLeaveRoom_after_leave : forall s c client,
    JsMap.get c (clients s) = Some client ->
    fst (handleLeaveRoom Date_now s c) = after_leave Date_now s c client.
Proof.
  intros s c client G. unfold handleLeaveRoom, after_leave. rewrite G.
  now destruct (truthy (roomId client)).
Qed.

Lemma handleLeaveRoom_get_other : forall s c c',
    c' <> c ->
    JsMap.get c' (clients (fst (handleLeaveRoom Date_now s c))) =
    JsMap.get c' (clients s).
Proof.
  intros s c c' Hne. unfold handleLeaveRoom.
  destruct (JsMap.get c (clients s)) as [client|]; [|reflexivity].
  destruct (truthy (roomId client)); [|reflexivity].
  rewrite leaveRoom_get_client.
  destruct (String.eqb c c') eqn:E; [|reflexivity].
  apply String.eqb_eq in E. congruence.
Qed.

(** X9. Joining a room.  A connection with a truthy [userId] sends
    join-room in a reachable state.  The handler does what leave-room would
    do, then adds the connection to the member set of the room; after the
    leave notifications it sends the joiner one joined-room envelope, whose
    [users] are the truthy [userId]s of the members including the joiner,
    in member order, and then one user-joined envelope to every other
    member whose transport is OPEN.  The joiner gets no user-joined. *)
Theorem join_room_notifications : forall issued s c client r,
    reachable Date_now issued s ->
    JsMap.get c (clients s) = Some client ->
    truthy (userId client) = true ->
    let s1 := fst (handleLeaveRoom Date_now s c) in
    let s4 := enterRoom s1 c client r in
    let members := JsSet.add c (room_of s1 r) in
    let joined :=
      JSON_stringify
        [("type", JVal (Str "joined-room"));
         ("roomId", JVal r);
         ("users", JArr (usersInRoom s4 members));
         ("timestamp", JNum (Date_now (ticks s1)))] in
    let user_joined :=
      JSON_stringify
        [("type", JVal (Str "user-joined"));
         ("userId", JVal (userId client));
         ("timestamp", JNum (Date_now (S (ticks s1))))] in
    handleJoinRoom Date_now s c r =
      inr (tick (tick s4),
           snd (handleLeaveRoom Date_now s c) ++
           (c, joined) ::
           map (fun x => (x, user_joined))
               (filter (fun x => negb (String.eqb x c) && transport_open s x)
                       members)) /\
    room_of s4 r = members /\
    In c members.
Proof.
  intros issued s c client r R G Hu s1 s4 members joined user_joined.
  apply reachable_invariant in R.
  assert (Hroom : room_of s4 r = members)
    by (unfold s4; now rewrite enterRoom_room_of, value_eqb_refl).
  split; [|split; [exact Hroom | apply in_set_add; now right]].
  assert (Hs1 : s1 = after_leave Date_now s c client)
    by (apply handleLeaveRoom_after_leave; exact G).
  destruct (invariant_after_leave Date_now issued s c client R G)
    as (I1 & client1 & G1 & Hws & Hf).
  rewrite <- Hs1 in I1, G1.
  pose proof (invariant_enterRoom issued s1 c client client1 r I1 G1
                (eq_sym Hws) Hf)
    as I4.
  fold s4 in I4. apply invariant_tick in I4. destruct I4 as [_ _ W _ _ _].
  assert (Hc : conn (ws client) = c) by (destruct R as [_ _ I3 _ _ _]; now apply I3).
  assert (E : handleJoinRoom Date_now s c r =
              inr (tick (tick s4),
                   snd (handleLeaveRoom Date_now s c) ++
                   ws_send (ws client)
                     [("type", JVal (Str "joined-room"));
                      ("roomId", JVal r);
                      ("users", JArr (usersInRoom s4 (room_of s4 r)));
                      ("timestamp", JNum (Date_now (ticks s4)))] ::
                   broadcastToRoom (tick s4) r
                     [("type", JVal (Str "user-joined"));
                      ("userId", JVal (userId client));
                      ("timestamp", JNum (Date_now (ticks (tick s4))))]
                     (Some c))).
  { unfold s4, s1, handleJoinRoom, handleLeaveRoom. rewrite G, Hu.
    cbv beta iota delta [negb].
    destruct (truthy (roomId client)); [|reflexivity].
    now destruct (leaveRoom Date_now s c (roomId client)). }
  assert (Ht : ticks s4 = ticks s1) by (unfold s4; apply enterRoom_ticks).
  rewrite E. unfold ws_send. rewrite Hc, Hroom, Ht.
  rewrite (broadcast_excluding (tick s4) r _ c W).
  change (room_of (tick s4) r) with (room_of s4 r).
  change (ticks (tick s4)) with (S (ticks s4)). rewrite Hroom, Ht.
  fold joined. fold user_joined.
  do 5 f_equal. apply filter_ext_in. intros x _.
  destruct (String.eqb x c) eqn:Ex; [reflexivity|]. cbn [negb andb].
  unfold transport_open. change (clients (tick s4)) with (clients s4).
  unfold s4. rewrite enterRoom_get_client.
  assert (Hne : x <> c) by now apply String.eqb_neq.
  assert (Ecx : String.eqb c x = false) by (apply String.eqb_neq; congruence).
  rewrite Ecx. unfold s1. now rewrite handleLeaveRoom_get_other.
Qed.

(** X10. An envelope whose [type] is a string other than the ten the switch
    lists, or is missing, [null] or a boolean, is ignored: nothing is sent
    and the state stays as it is. *)
Theorem unknown_type_ignored : forall s c m,
    (forall t, Message.type m = Str t -> ~ In t known_types) ->
    on_message Date_now s c (Some (PObj m)) = (s, []).
Proof.
  intros s c m H. unfold on_message, handleMessage.
  destruct (JsMap.get c (clients s)); [|reflexivity].
  unfold dispatch. destruct (Message.type m) as [| | |t]; try reflexivity.
  specialize (H t eq_refl). unfold known_types in H. simpl in H.
  repeat match goal with
         | |- context [String.eqb t ?k] =>
             let E := fresh "E" in
             destruct (String.eqb t k) eqn:E;
             [apply String.eqb_eq in E; exfalso; apply H; subst t; tauto|]
         end.
  reflexivity.
Qed.

(** X11. A frame that parses to [null] is answered like one that does not
    parse: reading [message.type] throws, the [catch] replies
    "Invalid message format" on the same connection and the state stays as
    it is.  Under an identifier without a client record the frame is dropped
    before [message.type] is read. *)
Theorem null_frame_reply : forall s c,
    on_message Date_now s c (Some PNull) =
    (s, if JsMap.has c (clients s)
        then [(c, JSON_stringify (error_envelope "Invalid message format"))]
        else []).
Proof.
  intros s c. unfold on_message, handleMessage, JsMap.has.
  now destruct (JsMap.get c (clients s)).
Qed.

(** X12. A chat-message from a connection whose [roomId] is falsy ([null]
    before any join and after a leave, but also the empty string after
    joining the room named by it) is not relayed: the sender alone gets the
    error "Must be in a room to send messages" and the state stays as it
    is. *)
Theorem chat_outside_room_rejected : forall s c client m,
    JsMap.get c (clients s) = Some client ->
    truthy (roomId client) = false ->
    Message.type m = Str "chat-message" ->
    on_message Date_now s c (Some (PObj m)) =
    (s, [(conn (ws client),
          [("type", JVal (Str "error"));
           ("error", JVal (Str "Must be in a room to send messages"))])]).
Proof.
  intros s c client m G T Ht.
  unfold on_message, handleMessage. rewrite G.
  unfold dispatch. rewrite Ht. simpl.
  unfold handleChatMessage. now rewrite G, T.
Qed.

(** X13. The call relay keeps no state: handling call-user, call-response,
    end-call or one of the three webrtc envelopes never changes a client
    record or a room, whoever sends it and whether or not the target
    exists. *)
Theorem signaling_is_stateless : forall s c m t,
    Message.type m = Str t ->
    In t signaling_types ->
    clients (fst (on_message Date_now s c (Some (PObj m)))) = clients s /\
    rooms (fst (on_message Date_now s c (Some (PObj m)))) = rooms s.
Proof.
  intros s c m t Ht Hin.
  unfold on_message, handleMessage.
  destruct (JsMap.get c (clients s)) as [client|] eqn:G;
    [|simpl; auto].
  unfold dispatch. rewrite Ht.
  assert (Hcases : forall (h : State -> string -> Message.t -> result),
             (h = handleWebRTCSignaling Date_now \/ h = handleCallUser Date_now \/
              h = handleCallResponse Date_now \/ h = handleEndCall Date_now) ->
             clients (fst (h s c m)) = clients s /\
             rooms (fst (h s c m)) = rooms s).
  { intros h [-> | [-> | [-> | ->]]];
      unfold handleWebRTCSignaling, handleCallUser, handleCallResponse,
        handleEndCall; rewrite G;
      [destruct (truthy (roomId client)) | destruct (truthy (userId client))
       | destruct (truthy (userId client)) | destruct (truthy (userId client))];
      simpl; auto;
      destruct (findClientByUserId s (Message.targetUserId m)); simpl; auto. }
  unfold signaling_types in Hin. simpl in Hin.
  destruct Hin as [<- | [<- | [<- | [<- | [<- | [<- | []]]]]]]; simpl;
    apply Hcases; tauto.
Qed.

End Relay.

(** ** Presence, from the server's list to the client's set *)

Lemma in_usersInRoom : forall s room x,
    In x (usersInRoom s room) <->
    truthy x = true /\
    exists m client,
      In m room /\ JsMap.get m (clients s) = Some client /\ userId client = x.
Proof.
  intros s room x. unfold usersInRoom. rewrite filter_In, in_map_iff. split.
  - intros [(m & Hm & Hin) T]. split; [exact T|].
    destruct (JsMap.get m (clients s)) as [client|] eqn:G.
    + exists m, client. auto.
    + subst x. discriminate.
  - intros [T (m & client & Hin & G & Hu)]. split; [|exact T].
    exists m. now rewrite G.
Qed.

Section JoinList.
Variable Date_now : nat -> Z.

(** X14. The joined-room envelope that [handleJoinRoom] sends to a joiner
    with a truthy [userId] always names the joiner itself in [users]: the
    list is read after the joiner has been added to the room. *)
Theorem joined_room_lists_joiner : forall s c client r,
    JsMap.get c (clients s) = Some client ->
    truthy (userId client) = true ->
    exists s' before after users stamp,
      handleJoinRoom Date_now s c r =
        inr (s',
             before ++
             ws_send (ws client)
               [("type", JVal (Str "joined-room"));
                ("roomId", JVal r);
                ("users", JArr users);
                ("timestamp", JNum stamp)] :: after) /\
      In (userId client) users.
Proof.
  intros s c client r G Hu.
  set (s1 := if truthy (roomId client)
             then fst (leaveRoom Date_now s c (roomId client)) else s).
  set (s4 := enterRoom s1 c client r).
  exists (tick (tick s4)),
    (snd (if truthy (roomId client)
          then leaveRoom Date_now s c (roomId client) else (s, []))),
    (broadcastToRoom (tick s4) r
       [("type", JVal (Str "user-joined"));
        ("userId", JVal (userId client));
        ("timestamp", JNum (Date_now (ticks (tick s4))))]
       (Some c)),
    (usersInRoom s4 (room_of s4 r)), (Date_now (ticks s4)).
  split.
  - unfold s4, s1, handleJoinRoom. rewrite G, Hu.
    cbv beta iota delta [negb].
    destruct (truthy (roomId client)); [|reflexivity].
    now destruct (leaveRoom Date_now s c (roomId client)).
  - apply in_usersInRoom. split; [exact Hu|].
    exists c, (set_roomId client r). split; [|split; [|reflexivity]].
    + unfold s4. rewrite enterRoom_room_of, value_eqb_refl.
      apply in_set_add. now right.
    + unfold s4. now rewrite enterRoom_get_client, String.eqb_refl.
Qed.

End JoinList.

Lemma in_new_Set_from : forall (array : list value) (set : JsSet.t (K:=value)) x,
    In x (fold_left (fun set u => JsSet.add u set) array set) <->
    In x set \/ In x array.
Proof.
  induction array as [|u array IH]; intros set x; simpl.
  - tauto.
  - rewrite IH, in_set_add. intuition.
Qed.

Lemma NoDup_new_Set_from : forall (array : list value) (set : JsSet.t (K:=value)),
    NoDup set -> NoDup (fold_left (fun set u => JsSet.add u set) array set).
Proof.
  induction array as [|u array IH]; intros set Hnd; simpl; auto.
  apply IH. now apply NoDup_set_add.
Qed.

Lemma in_new_Set : forall array x, In x (ClientApp.new_Set array) <-> In x array.
Proof.
  intros array x. unfold ClientApp.new_Set. rewrite in_new_Set_from.
  simpl. tauto.
Qed.

(** X15. What the joiner's client shows.  Fed the [users] list the server
    builds for a room, [handleJoinedRoom] leaves in [state.users], once
    each, exactly the truthy [userId]s of the members' client records that
    differ from the client's own [userId]: the client takes itself (and any
    member registered under its own name) out of the list. *)
Theorem joiner_sees_other_members : forall s room st x,
    (In x (ClientApp.users
             (ClientApp.handleJoinedRoom st (usersInRoom s room))) <->
     x <> ClientApp.userId st /\
     truthy x = true /\
     exists m client,
       In m room /\ JsMap.get m (clients s) = Some client /\ userId client = x) /\
    NoDup (ClientApp.users
             (ClientApp.handleJoinedRoom st (usersInRoom s room))).
Proof.
  intros s room st x. unfold ClientApp.handleJoinedRoom. simpl. split.
  - rewrite in_new_Set, filter_In, in_usersInRoom, negb_true_iff. split.
    + intros [H E]. split; [|exact H].
      exact (key_eqb_false (K:=value) x (ClientApp.userId st) E).
    + intros [Hne H]. split; [exact H|].
      exact (key_eqb_neq (K:=value) x (ClientApp.userId st) Hne).
  - unfold ClientApp.new_Set. apply NoDup_new_Set_from. constructor.
Qed.

(** X16. The client never lists itself: if its own [userId] is not in
    [state.users] (as at start, when the set is empty), it is not there
    after any sequence of joined-room, user-joined and user-left envelopes,
    none of which changes [state.userId]. *)
Theorem client_never_lists_itself : forall events st,
    ~ In (ClientApp.userId st) (ClientApp.users st) ->
    let st' := fold_left ClientApp.handle events st in
    ClientApp.userId st' = ClientApp.userId st /\
    ~ In (ClientApp.userId st') (ClientApp.users st').
Proof.
  induction events as [|e events IH]; intros st H; simpl; [auto|].
  assert (Hstep : ClientApp.userId (ClientApp.handle st e) = ClientApp.userId st /\
                  ~ In (ClientApp.userId (ClientApp.handle st e))
                       (ClientApp.users (ClientApp.handle st e))).
  { destruct e as [l|u|u]; simpl.
    - split; [reflexivity|]. unfold ClientApp.handleJoinedRoom. simpl.
      rewrite in_new_Set, filter_In, negb_true_iff.
      intros [_ E]. now rewrite value_eqb_refl in E.
    - unfold ClientApp.handleUserJoined.
      destruct (value_eqb u (ClientApp.userId st)) eqn:E; simpl; [auto|].
      split; [reflexivity|]. rewrite in_set_add. intros [Hin|Heq]; [auto|].
      subst u. now rewrite value_eqb_refl in E.
    - split; [reflexivity|]. unfold ClientApp.handleUserLeft. simpl.
      rewrite in_set_delete. tauto. }
  destruct Hstep as [Hu Hn].
  destruct (IH (ClientApp.handle st e) Hn) as [Hu' Hn'].
  split; [congruence | exact Hn'].
Qed.

Section OneRoom.
Variable Date_now : nat -> Z.

(** X17. In a reachable state a member of a room with a truthy identifier
    is a live connection whose [roomId] names that room, and it is a member
    of no other room with a truthy identifier. *)
Theorem member_of_one_truthy_room : forall issued s c r,
    reachable Date_now issued s ->
    truthy r = true ->
    In c (room_of s r) ->
    exists client,
      JsMap.get c (clients s) = Some client /\
      roomId client = r /\
      forall r', truthy r' = true -> In c (room_of s r') -> r' = r.
Proof.
  intros issued s c r R T Hin.
  apply reachable_invariant in R. destruct R as [_ _ _ _ I5 _].
  destruct (I5 r c T Hin) as (client & G & E).
  exists client. split; [exact G|]. split; [exact E|].
  intros r' T' Hin'. destruct (I5 r' c T' Hin') as (client' & G' & E').
  congruence.
Qed.

End OneRoom.

(** ** Witnesses of the further properties *)

(** A toy platform for the key and base64 wrappers: texts and bytes are kept
    as they are. *)
Definition toy_base64 (text : jsstring) : option jsstring := Some text.

Lemma toy_base64_round_trip : forall binary : jsstring,
    Forall (fun cu => (cu < 256)%N) binary ->
    exists text, toy_base64 binary = Some text /\ toy_base64 text = Some binary.
Proof. intros binary _. exists binary. split; reflexivity. Defined.

Lemma base64_helpers_round_trip_witness :
  (forall binary : jsstring,
      Forall (fun cu => (cu < 256)%N) binary ->
      exists text, toy_base64 binary = Some text /\ toy_base64 text = Some binary) /\
  exists base64,
    arrayBufferToBase64 toy_base64 [x00; x41; xff] = Some base64 /\
    base64ToArrayBuffer toy_base64 base64 = Some [x00; x41; xff].
Proof.
  split; [exact toy_base64_round_trip|].
  exact (base64_helpers_round_trip toy_base64 toy_base64 toy_base64_round_trip
           [x00; x41; xff]).
Defined.

Lemma encryptMessage_format_witness :
  let encode := map to_uint8 in
  let random := fun n => repeat x00 n in
  let cipher := fun (iv : list byte) (key : unit) (data : list byte) => Some data in
  (forall n, length (random n) = n) /\
  exists encrypted data,
    encryptMessage unit encode random cipher toy_base64 [72; 105]%N tt =
      Some encrypted /\
    base64ToArrayBuffer toy_base64 encrypted = Some data /\
    length data = 12 + length (encode [72; 105]%N) /\
    firstn 12 data = random 12 /\
    skipn 12 data = encode [72; 105]%N.
Proof.
  intros encode random cipher.
  assert (H : forall n, length (random n) = n) by (intro n; apply repeat_length).
  split; [exact H|].
  exact (encryptMessage_format toy_base64 toy_base64 toy_base64_round_trip
           unit encode random cipher H [72; 105]%N tt).
Defined.

Lemma exported_key_imports_back_witness :
  let export := fun key : list byte => Some key in
  (forall key raw : list byte, export key = Some raw -> export raw = Some key) /\
  export [x01; x02] <> None /\
  exists keyData,
    exportSymmetricKey (list byte) export toy_base64 [x01; x02] = Some keyData /\
    importSymmetricKey (list byte) export toy_base64 keyData = Some [x01; x02].
Proof.
  intros export.
  assert (H : forall key raw : list byte,
             export key = Some raw -> export raw = Some key)
    by (intros key raw E; injection E as <-; reflexivity).
  assert (Hx : export [x01; x02] <> None) by discriminate.
  split; [exact H|]. split; [exact Hx|].
  exact (proj1 (exported_key_imports_back toy_base64 toy_base64
                  toy_base64_round_trip (list byte) (list byte)
                  export export export export H H)
           [x01; x02] Hx).
Defined.

Lemma decryptKey_encryptKey_round_trip_witness :
  let export := fun key : list byte => Some key in
  let rsa := fun (key : unit) (data : list byte) => Some data in
  (forall data encryptedData,
      rsa tt data = Some encryptedData -> rsa tt encryptedData = Some data) /\
  export [x01; x02] = Some [x01; x02] /\
  rsa tt [x01; x02] <> None /\
  exists encryptedKey,
    encryptKey (list byte) unit export rsa toy_base64 [x01; x02] tt =
      Some encryptedKey /\
    decryptKey (list byte) unit export rsa toy_base64 encryptedKey tt =
      Some [x01; x02].
Proof.
  intros export rsa.
  assert (H : forall key raw : list byte,
             export key = Some raw -> export raw = Some key)
    by (intros key raw E; injection E as <-; reflexivity).
  assert (Hp : forall data encryptedData,
             rsa tt data = Some encryptedData ->
             rsa tt encryptedData = Some data)
    by (intros data encryptedData E; injection E as <-; reflexivity).
  assert (He : rsa tt [x01; x02] <> None) by discriminate.
  split; [exact Hp|]. split; [reflexivity|]. split; [exact He|].
  exact (decryptKey_encryptKey_round_trip toy_base64 toy_base64
           toy_base64_round_trip (list byte) unit unit export export rsa rsa H
           [x01; x02] tt tt [x01; x02] Hp eq_refl He).
Defined.

Lemma findClientByUserId_first_match_witness :
  findClientByUserId alice_bob_no_room (Str "bob") = Some bob_record /\
  exists before c after,
    clients alice_bob_no_room = before ++ (c, bob_record) :: after /\
    userId bob_record = Str "bob" /\
    forall c' client', In (c', client') before -> userId client' <> Str "bob".
Proof.
  split; [reflexivity|].
  exact (proj2 (findClientByUserId_first_match alice_bob_no_room (Str "bob"))
           bob_record eq_refl).
Defined.

Definition alice_in_r1 : Client :=
  {| ws := {| conn := "A"; readyState := 1 |};
     userId := Str "alice"; roomId := Str "r1" |}.

Definition bob_in_r1 : Client :=
  {| ws := {| conn := "B"; readyState := 1 |};
     userId := Str "bob"; roomId := Str "r1" |}.

Lemma leave_room_notifies_remaining_witness :
  let s := run clock initial alice_bob_in_r1 in
  JsMap.get "A" (clients s) = Some alice_in_r1 /\
  truthy (roomId alice_in_r1) = true /\
  snd (handleLeaveRoom clock s "A") =
    [("B", [("type", JVal (Str "user-left"));
            ("userId", JVal (Str "alice"));
            ("timestamp", JNum 8)])].
Proof.
  split; [reflexivity|]. split; [reflexivity|].
  exact (proj1 (leave_room_notifies_remaining clock ["B"; "A"]
                  (run clock initial alice_bob_in_r1) "A" alice_in_r1
                  alice_bob_in_r1_reachable eq_refl eq_refl)).
Defined.

Lemma disconnect_cleans_up_witness :
  let s := run clock initial alice_bob_in_r1 in
  JsMap.get "A" (clients (fst (on_close clock s "A"))) = None /\
  snd (on_close clock s "A") = snd (handleLeaveRoom clock s "A") /\
  ~ In "A" (room_of (fst (on_close clock s "A")) (Str "r1")).
Proof.
  pose proof (disconnect_cleans_up clock ["B"; "A"]
                (run clock initial alice_bob_in_r1) "A"
                alice_bob_in_r1_reachable) as H.
  split; [exact (proj1 H)|]. split; [exact (proj1 (proj2 (proj2 H)))|].
  exact (proj1 (proj2 (proj2 (proj2 H))) (Str "r1") eq_refl).
Defined.

Lemma join_room_notifications_witness :
  let s := run clock initial alice_bob_in_r1 in
  JsMap.get "B" (clients s) = Some bob_in_r1 /\
  truthy (userId bob_in_r1) = true /\
  exists s',
    handleJoinRoom clock s "B" (Str "r2") =
    inr (s',
         [("A", [("type", JVal (Str "user-left"));
                 ("userId", JVal (Str "bob"));
                 ("timestamp", JNum 8)]);
          ("B", [("type", JVal (Str "joined-room"));
                 ("roomId", JVal (Str "r2"));
                 ("users", JArr [Str "bob"]);
                 ("timestamp", JNum 9)])]).
Proof.
  split; [reflexivity|]. split; [reflexivity|].
  eexists.
  exact (proj1 (join_room_notifications clock ["B"; "A"]
                  (run clock initial alice_bob_in_r1) "B" bob_in_r1 (Str "r2")
                  alice_bob_in_r1_reachable eq_refl eq_refl)).
Defined.

Lemma unknown_type_ignored_witness :
  let m := Message.mk (Str "ping") Undefined Undefined Undefined Undefined
             Undefined Undefined Undefined Undefined in
  (forall t, Message.type m = Str t -> ~ In t known_types) /\
  on_message clock alice_alone "A" (Some (PObj m)) = (alice_alone, []).
Proof.
  intros m.
  assert (H : forall t, Message.type m = Str t -> ~ In t known_types).
  { intros t E. injection E as <-. unfold known_types. simpl.
    intros Hin.
    repeat (destruct Hin as [Hin|Hin]; [discriminate Hin|]). exact Hin. }
  split; [exact H|].
  exact (unknown_type_ignored clock alice_alone "A" m H).
Defined.

Lemma chat_outside_room_rejected_witness :
  JsMap.get "A" (clients alice_alone) = Some alice_record /\
  truthy (roomId alice_record) = false /\
  on_message clock alice_alone "A" (chat_message "hi") =
    (alice_alone,
     [("A", [("type", JVal (Str "error"));
             ("error", JVal (Str "Must be in a room to send messages"))])]).
Proof.
  split; [reflexivity|]. split; [reflexivity|].
  exact (chat_outside_room_rejected clock alice_alone "A" alice_record
           (Message.mk (Str "chat-message") Undefined Undefined (Str "hi")
              (Bool false) Undefined Undefined Undefined Undefined)
           eq_refl eq_refl eq_refl).
Defined.

Lemma signaling_is_stateless_witness :
  In "call-user" signaling_types /\
  clients (fst (on_message clock alice_bob_no_room "A"
                  (Some (PObj (call "call-user" "bob"))))) =
    clients alice_bob_no_room /\
  rooms (fst (on_message clock alice_bob_no_room "A"
                (Some (PObj (call "call-user" "bob"))))) =
    rooms alice_bob_no_room.
Proof.
  assert (H : In "call-user" signaling_types)
    by (unfold signaling_types; simpl; tauto).
  split; [exact H|].
  exact (signaling_is_stateless clock alice_bob_no_room "A"
           (call "call-user" "bob") "call-user" eq_refl H).
Defined.

Lemma joined_room_lists_joiner_witness :
  let s := run clock initial alice_bob_in_r1 in
  JsMap.get "B" (clients s) = Some bob_in_r1 /\
  truthy (userId bob_in_r1) = true /\
  exists s' before after users stamp,
    handleJoinRoom clock s "B" (Str "r2") =
      inr (s',
           before ++
           ws_send (ws bob_in_r1)
             [("type", JVal (Str "joined-room"));
              ("roomId", JVal (Str "r2"));
              ("users", JArr users);
              ("timestamp", JNum stamp)] :: after) /\
    In (userId bob_in_r1) users.
Proof.
  split; [reflexivity|]. split; [reflexivity|].
  exact (joined_room_lists_joiner clock (run clock initial alice_bob_in_r1)
           "B" bob_in_r1 (Str "r2") eq_refl eq_refl).
Defined.

Definition bob_client : ClientApp.state :=
  {| ClientApp.clientId := Str "B"; ClientApp.userId := Str "bob";
     ClientApp.roomId := Str "r1"; ClientApp.users := [] |}.

Lemma joiner_sees_other_members_witness :
  let s := run clock initial alice_bob_in_r1 in
  ClientApp.users
    (ClientApp.handleJoinedRoom bob_client (usersInRoom s ["A"; "B"])) =
    [Str "alice"] /\
  Str "alice" <> ClientApp.userId bob_client /\
  truthy (Str "alice") = true /\
  exists m client,
    In m ["A"; "B"] /\ JsMap.get m (clients s) = Some client /\
    userId client = Str "alice".
Proof.
  split; [reflexivity|].
  apply (proj1 (proj1 (joiner_sees_other_members
                         (run clock initial alice_bob_in_r1) ["A"; "B"]
                         bob_client (Str "alice")))).
  left. reflexivity.
Defined.

Lemma client_never_lists_itself_witness :
  let events :=
    [ClientApp.JoinedRoom [Str "alice"; Str "bob"];
     ClientApp.UserJoined (Str "bob");
     ClientApp.UserJoined (Str "carol");
     ClientApp.UserLeft (Str "alice")] in
  ~ In (ClientApp.userId bob_client) (ClientApp.users bob_client) /\
  ClientApp.users (fold_left ClientApp.handle events bob_client) = [Str "carol"] /\
  ~ In (Str "bob") (ClientApp.users (fold_left ClientApp.handle events bob_client)).
Proof.
  intros events.
  assert (H : ~ In (ClientApp.userId bob_client) (ClientApp.users bob_client))
    by (intros []).
  split; [exact H|]. split; [reflexivity|].
  exact (proj2 (client_never_lists_itself events bob_client H)).
Defined.

Lemma member_of_one_truthy_room_witness :
  let s := run clock initial alice_bob_in_r1 in
  truthy (Str "r1") = true /\
  In "A" (room_of s (Str "r1")) /\
  exists client,
    JsMap.get "A" (clients s) = Some client /\
    roomId client = Str "r1" /\
    forall r', truthy r' = true -> In "A" (room_of s r') -> r' = Str "r1".
Proof.
  assert (Hin : In "A" (room_of (run clock initial alice_bob_in_r1) (Str "r1")))
    by (left; reflexivity).
  split; [reflexivity|]. split; [exact Hin|].
  exact (member_of_one_truthy_room clock ["B"; "A"]
           (run clock initial alice_bob_in_r1) "A" (Str "r1")
           alice_bob_in_r1_reachable eq_refl Hin).
Defined.

(** ** Registration *)

Lemma find_client_set : forall cs c client u,
    JsMap.get c cs <> None ->
    userId client = u ->
    exists target,
      find_client (JsMap.set c client cs) u = Some target /\
      userId target = u /\
      (find_client cs u = None -> target = client).
Proof.
  induction cs as [|[k v] cs IH]; intros c client u Hget Hu; simpl in *.
  - now elim Hget.
  - destruct (String.eqb k c) eqn:E; simpl.
    + rewrite Hu, value_eqb_refl. exists client. auto.
    + destruct (value_eqb (userId v) u) eqn:Ev.
      * exists v. split; [reflexivity|]. split; [|discriminate].
        now apply value_eqb_eq.
      * now apply IH.
Qed.

Section Registration.
Variable Date_now : nat -> Z.

(** X18. Registering makes a connection addressable: after register with
    [userId] u is handled for a connection that has a record,
    [findClientByUserId] finds a record for u.  It is the registering
    connection's own record when no record carried u before; nothing checks
    that u is free, and when an earlier connection already carries u the
    lookup may keep returning that one. *)
Theorem registered_user_is_found : forall s c client u,
    JsMap.get c (clients s) = Some client ->
    let s' := fst (handleRegister Date_now s c u) in
    exists target,
      findClientByUserId s' u = Some target /\
      userId target = u /\
      (findClientByUserId s u = None -> target = set_userId client u).
Proof.
  intros s c client u G s'. unfold s', handleRegister, findClientByUserId.
  rewrite G. simpl. apply find_client_set; [|reflexivity].
  rewrite G. discriminate.
Qed.

(** X19. A connection that has not registered and is in no room can do
    nothing but register: whatever other envelope it sends, the state is
    left exactly as it was and nothing is sent to any other connection
    (join-room and chat-message are answered with an error, the rest is
    dropped). *)
Theorem unregistered_connection_is_inert : forall s c client m,
    JsMap.get c (clients s) = Some client ->
    userId client = Null ->
    roomId client = Null ->
    Message.type m <> Str "register" ->
    fst (on_message Date_now s c (Some (PObj m))) = s /\
    forall d e,
      In (d, e) (snd (on_message Date_now s c (Some (PObj m)))) ->
      d = conn (ws client).
Proof.
  intros s c client m G Hu Hr Ht.
  unfold on_message, handleMessage. rewrite G. unfold dispatch.
  destruct (Message.type m) as [| | |t];
    try (split; [reflexivity | intros d e []]).
  destruct (String.eqb t "register") eqn:E.
  { apply String.eqb_eq in E. subst t. now elim Ht. }
  unfold handleJoinRoom, handleLeaveRoom, handleChatMessage,
    handleWebRTCSignaling, handleCallUser, handleCallResponse, handleEndCall.
  rewrite G, Hu, Hr. simpl.
  repeat match goal with
         | |- context [if ?b then _ else _] => destruct b
         end;
    simpl; (split; [reflexivity|]);
    intros d e Hin;
    repeat (destruct Hin as [Hin|Hin]; [now injection Hin as <- _|]);
    now elim Hin.
Qed.

End Registration.

Lemma registered_user_is_found_witness :
  let client := {| ws := {| conn := "A"; readyState := 1 |};
                   userId := Null; roomId := Null |} in
  let s := run clock initial [Connection "A"] in
  JsMap.get "A" (clients s) = Some client /\
  findClientByUserId s (Str "alice") = None /\
  findClientByUserId (fst (handleRegister clock s "A" (Str "alice")))
    (Str "alice") = Some alice_record.
Proof.
  intros client s.
  split; [reflexivity|]. split; [reflexivity|].
  destruct (registered_user_is_found clock s "A" client (Str "alice") eq_refl)
    as (target & Hf & _ & Ht).
  rewrite Hf. f_equal. exact (Ht eq_refl).
Defined.

Lemma unregistered_connection_is_inert_witness :
  let client := {| ws := {| conn := "A"; readyState := 1 |};
                   userId := Null; roomId := Null |} in
  let s := run clock initial [Connection "A"] in
  JsMap.get "A" (clients s) = Some client /\
  Message.type (call "call-user" "bob") <> Str "register" /\
  fst (on_message clock s "A" (Some (PObj (call "call-user" "bob")))) = s.
Proof.
  intros client s.
  assert (Ht : Message.type (call "call-user" "bob") <> Str "register")
    by discriminate.
  split; [reflexivity|]. split; [exact Ht|].
  exact (proj1 (unregistered_connection_is_inert clock s "A" client
                  (call "call-user" "bob") eq_refl eq_refl eq_refl Ht)).
Defined.
